(** * dendrite-monolith-server: the startup orchestrator

    A shallow embedding of [cmd/dendrite-monolith-server/main.go].

    [main] is straight-line Go: it builds the shared infrastructure, calls
    the nine component registrars, assembles the router on
    [http.DefaultServeMux], launches one or two listener goroutines and
    blocks in [select {}].  The embedding has three layers.

    - Values, events and the mutable process state ([GoState]): handles
      have an identity, every external call is recorded in a chronological
      trace with the argument and result values it saw.
    - The sequential part of [main] (lines 50-89) is the monadic program
      [main_setup], written statement for statement in a state-and-panic
      monad.
    - Lines 92-115 and the two goroutine bodies are a small-step machine
      ([exec]) whose schedules interleave the main goroutine with the
      listener goroutines.

    Everything [main] calls lives outside this file of the repository.
    A callee is modelled by what Go guarantees about any call: it either
    returns or panics.  Which calls panic, what the public rooms store
    constructor reports and the command line are fixed by a [World]. *)

From Stdlib Require Import List String Ascii Bool Arith ZArith Lia.
Import ListNotations.
Open Scope string_scope.
Open Scope list_scope.

(** ** Values *)

(** What a handle is a handle of: one kind per value-producing call of
    [main]. *)
Inductive kind :=
| KCfg | KBase | KAccountDB | KDeviceDB | KKeyDB | KFederation | KKeyRing
| KAlias | KInput | KQuery
| KEDUCache | KEDUInput | KTxnCache | KASQuery | KFedSender
| KEDUProducer | KPublicRoomsDB.

Definition kind_eqb (a b : kind) : bool :=
  match a, b with
  | KCfg, KCfg | KBase, KBase | KAccountDB, KAccountDB
  | KDeviceDB, KDeviceDB | KKeyDB, KKeyDB | KFederation, KFederation
  | KKeyRing, KKeyRing | KAlias, KAlias | KInput, KInput | KQuery, KQuery
  | KEDUCache, KEDUCache | KEDUInput, KEDUInput | KTxnCache, KTxnCache
  | KASQuery, KASQuery | KFedSender, KFedSender
  | KEDUProducer, KEDUProducer | KPublicRoomsDB, KPublicRoomsDB => true
  | _, _ => false
  end.

(** Go values as [main] sees them.  [VHandle k n] is the [n]-th object
    allocated by the process; two handles are the same instance exactly
    when their numbers agree.  Field selections, [&x] and the three HTTP
    handler constructors are kept symbolic. *)
Inductive value :=
| VNil
| VStr (s : string)
| VErr (msg : string)
| VHandle (k : kind) (id : nat)
| VField (v : value) (field : string)
| VAddrOf (v : value)
| VWrapCORS (h : value)
| VWrapBasicAuth (h creds : value)
| VPromHandler.

(** The allocated object a value refers to, if any. *)
Fixpoint handle_of (v : value) : option (kind * nat) :=
  match v with
  | VHandle k n => Some (k, n)
  | VField v' _ => handle_of v'
  | VAddrOf v' => handle_of v'
  | _ => None
  end.

Definition is_nil (v : value) : bool :=
  match v with VNil => true | _ => false end.



(** ** Functions called by [main] *)

Inductive fn :=
| ParseMonolithFlags | NewBaseDendrite | Close
| CreateAccountsDB | CreateDeviceDB | CreateKeyDB | CreateFederationClient
| CreateKeyRing
| SetupRoomServerComponent | cache_New | SetupEDUServerComponent
| transactions_New | SetupAppServiceAPIComponent
| SetupFederationSenderComponent | SetupClientAPIComponent
| NewEDUServerProducer | SetupFederationAPIComponent
| SetupMediaAPIComponent | NewPublicRoomsServerDatabase
| SetupPublicRoomsAPIComponent | SetupSyncAPIComponent
| WrapHandlerInCORS | promhttp_Handler | WrapHandlerInBasicAuth.

(** The nine [Setup...Component] functions are the registrars. *)
Definition is_registrar (f : fn) : bool :=
  match f with
  | SetupRoomServerComponent | SetupEDUServerComponent
  | SetupAppServiceAPIComponent | SetupFederationSenderComponent
  | SetupClientAPIComponent | SetupFederationAPIComponent
  | SetupMediaAPIComponent | SetupPublicRoomsAPIComponent
  | SetupSyncAPIComponent => true
  | _ => false
  end.

Definition registrars : list fn :=
  [ SetupRoomServerComponent; SetupEDUServerComponent;
    SetupAppServiceAPIComponent; SetupFederationSenderComponent;
    SetupClientAPIComponent; SetupFederationAPIComponent;
    SetupMediaAPIComponent; SetupPublicRoomsAPIComponent;
    SetupSyncAPIComponent ].

Definition fn_eqb (a b : fn) : bool :=
  match a, b with
  | ParseMonolithFlags, ParseMonolithFlags
  | NewBaseDendrite, NewBaseDendrite | Close, Close
  | CreateAccountsDB, CreateAccountsDB | CreateDeviceDB, CreateDeviceDB
  | CreateKeyDB, CreateKeyDB
  | CreateFederationClient, CreateFederationClient
  | CreateKeyRing, CreateKeyRing
  | SetupRoomServerComponent, SetupRoomServerComponent
  | cache_New, cache_New
  | SetupEDUServerComponent, SetupEDUServerComponent
  | transactions_New, transactions_New
  | SetupAppServiceAPIComponent, SetupAppServiceAPIComponent
  | SetupFederationSenderComponent, SetupFederationSenderComponent
  | SetupClientAPIComponent, SetupClientAPIComponent
  | NewEDUServerProducer, NewEDUServerProducer
  | SetupFederationAPIComponent, SetupFederationAPIComponent
  | SetupMediaAPIComponent, SetupMediaAPIComponent
  | NewPublicRoomsServerDatabase, NewPublicRoomsServerDatabase
  | SetupPublicRoomsAPIComponent, SetupPublicRoomsAPIComponent
  | SetupSyncAPIComponent, SetupSyncAPIComponent
  | WrapHandlerInCORS, WrapHandlerInCORS
  | promhttp_Handler, promhttp_Handler
  | WrapHandlerInBasicAuth, WrapHandlerInBasicAuth => true
  | _, _ => false
  end.

(** ** Listeners and servers *)

Inductive listener := Plain | TLS.

Definition listener_eqb (a b : listener) : bool :=
  match a, b with
  | Plain, Plain | TLS, TLS => true
  | _, _ => false
  end.

(** [http.Server] with the fields the program can observe.  [main] never
    assigns [Handler]; net/http serves [http.DefaultServeMux] when it is
    nil, which is [None] here. *)
Record Server := mkServer {
  Addr : string;
  WriteTimeout : Z;
  Handler : option value
}.

(** ** Events *)

Inductive level := InfoLevel | FatalLevel | PanicLevel.

Inductive event :=
| ECall (f : fn) (args rets : list value)   (* a call that returned *)
| ECallPanic (f : fn) (args : list value)   (* a call that panicked *)
| EDefer (f : fn) (recv : value)            (* [defer recv.f()] *)
| ERunDeferred (f : fn) (recv : value)      (* a deferred call runs *)
| EHandle (pattern : string) (h : value)    (* [http.Handle] *)
| ELog (l : level) (msg : string) (v : value)
| EPanic
| EGo (g : listener)                        (* a [go] statement *)
| EListen (g : listener) (s : Server)       (* ListenAndServe[TLS] entered *)
| EServe (g : listener) (path : string) (h : option value)
| EReturn (g : listener) (err : string)     (* ListenAndServe[TLS] returned *)
| EExit (code : nat).

(** ** http.ServeMux *)

(** [mux_m] is the pattern map; [mux_es] holds the entries whose pattern ends in
    a slash, longest pattern first. *)
Record ServeMux := mkMux {
  mux_m : list (string * value);
  mux_es : list (string * value)
}.

Definition emptyMux : ServeMux := mkMux [] [].

Fixpoint lookup (p : string) (l : list (string * value)) : option value :=
  match l with
  | [] => None
  | (q, h) :: l' => if String.eqb p q then Some h else lookup p l'
  end.

Fixpoint ends_in_slash (s : string) : bool :=
  match s with
  | EmptyString => false
  | String c EmptyString => Ascii.eqb c "/"%char
  | String _ s' => ends_in_slash s'
  end.

(** [appendSorted]: insert before the first entry with a shorter
    pattern. *)
Fixpoint appendSorted (l : list (string * value)) (e : string * value)
  : list (string * value) :=
  match l with
  | [] => [e]
  | x :: l' =>
      if Nat.ltb (String.length (fst x)) (String.length (fst e))
      then e :: x :: l'
      else x :: appendSorted l' e
  end.

(** [ServeMux.Handle]: [None] stands for its panics (empty pattern, nil
    handler, pattern registered twice). *)
Definition mux_Handle (mx : ServeMux) (pattern : string) (h : value)
  : option ServeMux :=
  if String.eqb pattern "" then None
  else if is_nil h then None
  else match lookup pattern (mux_m mx) with
       | Some _ => None
       | None =>
           Some (mkMux ((pattern, h) :: mux_m mx)
                       (if ends_in_slash pattern
                        then appendSorted (mux_es mx) (pattern, h)
                        else mux_es mx))
       end.

Fixpoint first_prefix (path : string) (l : list (string * value))
  : option value :=
  match l with
  | [] => None
  | (q, h) :: l' => if String.prefix q path then Some h
                    else first_prefix path l'
  end.

(** [ServeMux.match]: an exact entry wins, then the longest
    slash-terminated pattern that is a prefix of the path. *)
Definition mux_match (mx : ServeMux) (path : string) : option value :=
  match lookup path (mux_m mx) with
  | Some h => Some h
  | None => first_prefix path (mux_es mx)
  end.

(** ** The world outside the program *)

(** The command line (the four flags declared at lines 42-47, [None]
    when the flag is not given), what the configuration file says about
    metrics, and how the callees behave: the error
    [NewPublicRoomsServerDatabase] reports, and which external calls,
    counted from zero in execution order, panic instead of returning.
    [HTTPServerTimeout] is the constant of package [basecomponent]; it is
    declared outside this file and is a parameter here. *)
Record World := mkWorld {
  flag_http_bind_address : option string;
  flag_https_bind_address : option string;
  flag_tls_cert : option string;
  flag_tls_key : option string;
  metrics_enabled : bool;
  publicrooms_err : option string;
  panics : nat -> bool;
  HTTPServerTimeout : Z
}.

Definition flag_String (given : option string) (default : string) : string :=
  match given with Some s => s | None => default end.

Definition httpBindAddr (w : World) : string :=
  flag_String (flag_http_bind_address w) ":8008".
Definition httpsBindAddr (w : World) : string :=
  flag_String (flag_https_bind_address w) ":8448".
Definition certFile (w : World) : string :=
  flag_String (flag_tls_cert w) "".
Definition keyFile (w : World) : string :=
  flag_String (flag_tls_key w) "".

(** ** Process state seen by the main goroutine *)

Record GoState := mkGoState {
  next_id : nat;                  (* allocation counter *)
  ncalls : nat;                   (* external calls made so far *)
  apimux : list fn;               (* registrars that added their routes
                                     to [base.APIMux], oldest first *)
  DefaultServeMux : ServeMux;     (* [http.DefaultServeMux] *)
  defers : list (fn * value);     (* deferred calls of [main], newest first *)
  trace : list event              (* oldest first *)
}.

Definition init_state : GoState :=
  mkGoState 0 0 [] emptyMux [] [].

Definition emit_state (e : event) (s : GoState) : GoState :=
  mkGoState (next_id s) (ncalls s) (apimux s) (DefaultServeMux s)
            (defers s) (trace s ++ [e]).

(** ** A state-and-panic monad *)

Inductive result (A : Type) :=
| Ok (a : A)
| Panicking.
Arguments Ok {A} a.
Arguments Panicking {A}.

Definition M (A : Type) : Type := World -> GoState -> result A * GoState.

Definition ret {A} (a : A) : M A := fun _ s => (Ok a, s).

Definition bind {A B} (c : M A) (k : A -> M B) : M B :=
  fun w s =>
    match c w s with
    | (Ok a, s') => k a w s'
    | (Panicking, s') => (Panicking, s')
    end.

Notation "x <- c ;; k" := (bind c (fun x => k))
  (at level 61, c at next level, right associativity).
Notation "' pat <- c ;; k" := (bind c (fun x => match x with pat => k end))
  (at level 61, pat pattern, c at next level, right associativity).
Notation "c ;;; k" := (bind c (fun _ => k))
  (at level 61, right associativity).

Definition emit (e : event) : M unit :=
  fun _ s => (Ok tt, emit_state e s).

Definition panic : M unit :=
  fun _ s => (Panicking, emit_state EPanic s).

Definition ask {A} (f : World -> A) : M A := fun w s => (Ok (f w), s).

(** An external call.  [rets] computes the results from the allocation
    counter and [nalloc] says how many objects the callee allocated:
    what a constructor returns is a new object.  A registrar that
    returns has added its routes to [base.APIMux], and to that router
    only: the registrar contract of the specification (section 6) is
    route registration against the shared router, and the registrars'
    bodies are not in this file. *)
Definition ext_call (f : fn) (args : list value)
    (rets : nat -> list value) (nalloc : nat) : M (list value) :=
  fun w s =>
    if panics w (ncalls s)
    then (Panicking,
          mkGoState (next_id s) (S (ncalls s)) (apimux s)
                    (DefaultServeMux s) (defers s)
                    (trace s ++ [ECallPanic f args; EPanic]))
    else (Ok (rets (next_id s)),
          mkGoState (nalloc + next_id s) (S (ncalls s))
                    (if is_registrar f then apimux s ++ [f] else apimux s)
                    (DefaultServeMux s) (defers s)
                    (trace s ++ [ECall f args (rets (next_id s))])).

(** Calls by result shape. *)
Definition call0 (f : fn) (args : list value) : M unit :=
  _ <- ext_call f args (fun _ => []) 0 ;; ret tt.

Definition call1 (f : fn) (args : list value) (k : kind) : M value :=
  rs <- ext_call f args (fun n => [VHandle k n]) 1 ;;
  ret (nth 0 rs VNil).

Definition call3 (f : fn) (args : list value) (k1 k2 k3 : kind)
  : M (value * value * value) :=
  rs <- ext_call f args
          (fun n => [VHandle k1 n; VHandle k2 (1 + n); VHandle k3 (2 + n)]) 3 ;;
  ret (nth 0 rs VNil, nth 1 rs VNil, nth 2 rs VNil).

Definition call_sym (f : fn) (args : list value) (r : value) : M value :=
  _ <- ext_call f args (fun _ => [r]) 0 ;; ret r.

(** [storage.NewPublicRoomsServerDatabase] returns [(db, err)]: a store
    and nil, or nil and the connection error. *)
Definition call_NewPublicRoomsServerDatabase (dsn : value)
  : M (value * value) :=
  e <- ask publicrooms_err ;;
  match e with
  | None =>
      rs <- ext_call NewPublicRoomsServerDatabase [dsn]
              (fun n => [VHandle KPublicRoomsDB n; VNil]) 1 ;;
      ret (nth 0 rs VNil, nth 1 rs VNil)
  | Some msg =>
      rs <- ext_call NewPublicRoomsServerDatabase [dsn]
              (fun _ => [VNil; VErr msg]) 0 ;;
      ret (nth 0 rs VNil, nth 1 rs VNil)
  end.

(** [defer recv.f()] *)
Definition defer (f : fn) (recv : value) : M unit :=
  fun _ s =>
    (Ok tt,
     mkGoState (next_id s) (ncalls s) (apimux s) (DefaultServeMux s)
               ((f, recv) :: defers s) (trace s ++ [EDefer f recv])).

(** [logrus.WithError(err).Panicf(msg)]: log at panic level, then
    panic. *)
Definition WithError_Panicf (err : value) (msg : string) : M unit :=
  emit (ELog PanicLevel msg err) ;;; panic.

(** [http.Handle(pattern, h)] registers on [http.DefaultServeMux]. *)
Definition http_Handle (pattern : string) (h : value) : M unit :=
  fun w s =>
    match mux_Handle (DefaultServeMux s) pattern h with
    | None => panic w s
    | Some mx =>
        (Ok tt,
         mkGoState (next_id s) (ncalls s) (apimux s) mx (defers s)
                   (trace s ++ [EHandle pattern h]))
    end.

(** ** [main], lines 50 to 89 *)

Definition main_setup : M unit :=
  cfg <- call1 ParseMonolithFlags [] KCfg ;;
  base <- call1 NewBaseDendrite [cfg; VStr "Monolith"] KBase ;;
  defer Close base ;;;

  accountDB <- call1 CreateAccountsDB [base] KAccountDB ;;
  deviceDB <- call1 CreateDeviceDB [base] KDeviceDB ;;
  keyDB <- call1 CreateKeyDB [base] KKeyDB ;;
  federation <- call1 CreateFederationClient [base] KFederation ;;
  keyRing <- call1 CreateKeyRing
               [VField federation "Client"; keyDB;
                VField (VField cfg "Matrix") "KeyPerspectives"] KKeyRing ;;

  '(alias, input, query) <-
     call3 SetupRoomServerComponent [base] KAlias KInput KQuery ;;
  c <- call1 cache_New [] KEDUCache ;;
  eduInputAPI <- call1 SetupEDUServerComponent [base; c] KEDUInput ;;
  t1 <- call1 transactions_New [] KTxnCache ;;
  asQuery <- call1 SetupAppServiceAPIComponent
               [base; accountDB; deviceDB; federation; alias; query; t1]
               KASQuery ;;
  fedSenderAPI <- call1 SetupFederationSenderComponent
                    [base; federation; query] KFedSender ;;

  t2 <- call1 transactions_New [] KTxnCache ;;
  call0 SetupClientAPIComponent
    [base; deviceDB; accountDB;
     federation; VAddrOf keyRing; alias; input; query;
     eduInputAPI; asQuery; t2; fedSenderAPI] ;;;
  eduProducer <- call1 NewEDUServerProducer [eduInputAPI] KEDUProducer ;;
  call0 SetupFederationAPIComponent
    [base; accountDB; deviceDB; federation; VAddrOf keyRing; alias; input;
     query; asQuery; fedSenderAPI; eduProducer] ;;;
  call0 SetupMediaAPIComponent [base; deviceDB] ;;;
  '(publicRoomsDB, err) <-
     call_NewPublicRoomsServerDatabase
       (VField (VField (VField base "Cfg") "Database") "PublicRoomsAPI") ;;
  (if is_nil err then ret tt
   else WithError_Panicf err "failed to connect to public rooms db") ;;;
  call0 SetupPublicRoomsAPIComponent
    [base; deviceDB; publicRoomsDB; query; federation; VNil] ;;;
  call0 SetupSyncAPIComponent
    [base; deviceDB; accountDB; query; federation; cfg] ;;;

  httpHandler <- call_sym WrapHandlerInCORS [VField base "APIMux"]
                   (VWrapCORS (VField base "APIMux")) ;;

  enabled <- ask metrics_enabled ;;
  (if enabled
   then
     ph <- call_sym promhttp_Handler [] VPromHandler ;;
     creds <- ret (VField (VField cfg "Metrics") "BasicAuth") ;;
     h <- call_sym WrapHandlerInBasicAuth [ph; creds]
            (VWrapBasicAuth ph creds) ;;
     http_Handle "/metrics" h
   else ret tt) ;;;
  http_Handle "/" httpHandler.

(** ** The process: [main] from line 92 on, and the goroutines *)

(** Where the main goroutine stands. *)
Inductive mainpc :=
| AtSetup        (* before line 50 *)
| AtGoPlain      (* before the [go] statement of line 92 *)
| AtTLSCheck     (* before the [if] of line 102 *)
| AtSelect.      (* blocked in [select {}], line 115 *)

(** Where a listener goroutine stands. *)
Inductive gstate :=
| GStart                                 (* launched, body not entered *)
| GListening (s : Server)                (* inside ListenAndServe[TLS] *)
| GReturned (s : Server) (err : string). (* it returned [err]; the next
                                            thing is [logrus.Fatal] *)

Record Proc := mkProc {
  gs : GoState;
  pc : mainpc;
  plain_g : option gstate;        (* [None]: never launched *)
  tls_g : option gstate;
  exited : option nat             (* exit status once the process is gone *)
}.

Definition init_proc : Proc := mkProc init_state AtSetup None None None.

Definition goroutine (p : Proc) (g : listener) : option gstate :=
  match g with Plain => plain_g p | TLS => tls_g p end.

Definition set_goroutine (p : Proc) (g : listener) (x : gstate)
    (s : GoState) : Proc :=
  match g with
  | Plain => mkProc s (pc p) (Some x) (tls_g p) (exited p)
  | TLS => mkProc s (pc p) (plain_g p) (Some x) (exited p)
  end.

(** A panic unwinds [main]: the deferred calls run, newest first, and
    the runtime ends the process with status 2. *)
Definition run_deferred (s : GoState) : GoState :=
  mkGoState (next_id s) (ncalls s) (apimux s) (DefaultServeMux s) []
            (trace s ++ map (fun d => ERunDeferred (fst d) (snd d)) (defers s)).

Definition crash (s : GoState) : GoState :=
  emit_state (EExit 2) (run_deferred s).

(** [logrus.Fatal(err)]: log at fatal level, then [os.Exit(1)].  No
    deferred call runs. *)
Definition logrus_Fatal (err : string) (s : GoState) : GoState :=
  emit_state (EExit 1) (emit_state (ELog FatalLevel "" (VErr err)) s).

(** The server literal of lines 93-96 and 104-107. *)
Definition new_server (w : World) (g : listener) : Server :=
  match g with
  | Plain => mkServer (httpBindAddr w) (HTTPServerTimeout w) None
  | TLS => mkServer (httpsBindAddr w) (HTTPServerTimeout w) None
  end.

(** The handler a server routes a path to: its own [Handler], or
    [http.DefaultServeMux] when that is nil. *)
Definition route (s : GoState) (srv : Server) (path : string)
  : option value :=
  match Handler srv with
  | Some h => Some h
  | None => mux_match (DefaultServeMux s) path
  end.

(** Line 102: [*certFile != "" && *keyFile != ""]. *)
Definition tls_configured (w : World) : bool :=
  negb (String.eqb (certFile w) "") && negb (String.eqb (keyFile w) "").

(** What the scheduler or the network can make happen next. *)
Inductive action :=
| AMain                                  (* the main goroutine moves *)
| AStart (g : listener)                  (* a goroutine enters its body *)
| AServe (g : listener) (path : string)  (* a request is routed *)
| AFail (g : listener) (err : string)    (* ListenAndServe[TLS] returns *)
| AFatal (g : listener).                 (* [logrus.Fatal] runs *)

Definition main_step (w : World) (p : Proc) : option Proc :=
  match pc p with
  | AtSetup =>
      match main_setup w (gs p) with
      | (Ok _, s) => Some (mkProc s AtGoPlain None None None)
      | (Panicking, s) => Some (mkProc (crash s) AtSetup None None (Some 2))
      end
  | AtGoPlain =>
      Some (mkProc (emit_state (EGo Plain) (gs p)) AtTLSCheck
                   (Some GStart) (tls_g p) (exited p))
  | AtTLSCheck =>
      if tls_configured w
      then Some (mkProc (emit_state (EGo TLS) (gs p)) AtSelect
                        (plain_g p) (Some GStart) (exited p))
      else Some (mkProc (gs p) AtSelect (plain_g p) (tls_g p) (exited p))
  | AtSelect => None
  end.

Definition goroutine_step (w : World) (a : action) (p : Proc)
  : option Proc :=
  match a with
  | AMain => None
  | AStart g =>
      match goroutine p g with
      | Some GStart =>
          let srv := new_server w g in
          Some (set_goroutine p g (GListening srv)
                  (emit_state (EListen g srv)
                     (emit_state
                        (ELog InfoLevel "Listening on " (VStr (Addr srv)))
                        (gs p))))
      | _ => None
      end
  | AServe g path =>
      match goroutine p g with
      | Some (GListening srv) =>
          Some (set_goroutine p g (GListening srv)
                  (emit_state (EServe g path (route (gs p) srv path)) (gs p)))
      | _ => None
      end
  | AFail g err =>
      match goroutine p g with
      | Some (GListening srv) =>
          Some (set_goroutine p g (GReturned srv err)
                  (emit_state (EReturn g err) (gs p)))
      | _ => None
      end
  | AFatal g =>
      match goroutine p g with
      | Some (GReturned srv err) =>
          Some (mkProc (logrus_Fatal err (gs p)) (pc p)
                       (plain_g p) (tls_g p) (Some 1))
      | _ => None
      end
  end.

(** One step of the process.  Nothing moves once it has exited. *)
Definition exec (w : World) (a : action) (p : Proc) : option Proc :=
  match exited p with
  | Some _ => None
  | None =>
      match a with
      | AMain => main_step w p
      | _ => goroutine_step w a p
      end
  end.

(** A schedule is a list of actions; it runs if every action is
    enabled in turn. *)
Fixpoint run (w : World) (sched : list action) (p : Proc) : option Proc :=
  match sched with
  | [] => Some p
  | a :: sched' =>
      match exec w a p with
      | Some p' => run w sched' p'
      | None => None
      end
  end.

Inductive reachable (w : World) : Proc -> Prop :=
| reach_init : reachable w init_proc
| reach_step p a p' :
    reachable w p -> exec w a p = Some p' -> reachable w p'.

(** ** Worlds up to what [main_setup] can observe *)

(** The first of the calls numbered below [n] that panics. *)
Fixpoint first_panic_from (pn : nat -> bool) (start n : nat) : option nat :=
  match n with
  | O => None
  | S n' => if pn start then Some start
            else first_panic_from pn (S start) n'
  end.

Definition max_calls : nat := 25.

Definition first_panic (pn : nat -> bool) : option nat :=
  first_panic_from pn 0 max_calls.

Definition panics_at (k : option nat) : nat -> bool :=
  fun n => match k with Some k => Nat.eqb n k | None => false end.

(** [main_setup] in the world where metrics are [me], the public rooms
    store reports [pe] and exactly the [k]-th external call panics. *)
Definition setup_at (me : bool) (pe : option string) (k : option nat)
  : result unit * GoState :=
  main_setup (mkWorld None None None None me pe (panics_at k) 0) init_state.

Definition quiet : nat -> bool := fun _ => false.

(** The state [main_setup] leaves when every call returns. *)
Definition assembled (me : bool) : GoState := snd (setup_at me None None).

(** ** Reading traces *)

Fixpoint count (f : event -> bool) (t : list event) : nat :=
  match t with
  | [] => 0
  | e :: t' => (if f e then 1 else 0) + count f t'
  end.

Definition ev_go (g : listener) (e : event) : bool :=
  match e with EGo g' => listener_eqb g g' | _ => false end.
Definition ev_listen (g : listener) (e : event) : bool :=
  match e with EListen g' _ => listener_eqb g g' | _ => false end.
Definition ev_return (g : listener) (e : event) : bool :=
  match e with EReturn g' _ => listener_eqb g g' | _ => false end.
Definition ev_serve (g : listener) (e : event) : bool :=
  match e with EServe g' _ _ => listener_eqb g g' | _ => false end.
Definition ev_exit (e : event) : bool :=
  match e with EExit _ => true | _ => false end.
Definition ev_deferred (e : event) : bool :=
  match e with ERunDeferred _ _ => true | _ => false end.
Definition ev_panic (e : event) : bool :=
  match e with EPanic => true | _ => false end.
Definition ev_call (f : fn) (e : event) : bool :=
  match e with ECall f' _ _ => fn_eqb f f' | _ => false end.

(** Events that build the router surface: a registrar call, the
    handler wrappers, a registration on the default mux. *)
Definition ev_assembly (e : event) : bool :=
  match e with
  | ECall f _ _ =>
      is_registrar f ||
      match f with
      | WrapHandlerInCORS | WrapHandlerInBasicAuth | promhttp_Handler => true
      | _ => false
      end
  | EHandle _ _ => true
  | _ => false
  end.

(** Events of the launch phase (line 92 on) and of the goroutines. *)
Definition launch_event (e : event) : bool :=
  match e with
  | EGo _ | EListen _ _ | EServe _ _ _ | EReturn _ _ => true
  | ELog InfoLevel _ _ | ELog FatalLevel _ _ => true
  | EExit 1 => true
  | _ => false
  end.

(** Events [main_setup] can leave in the trace. *)
Definition setup_event (e : event) : bool :=
  match e with
  | ECall _ _ _ | ECallPanic _ _ | EDefer _ _ | EHandle _ _ | EPanic => true
  | ELog PanicLevel _ _ => true
  | _ => false
  end.

(** ** The declared dependency order *)

(** This definition follows the words of the specification, section
    4.2, steps 2 to 10, not the code: what each registrar is declared to
    depend on.  "Shared infrastructure" is the [base] bundle.  Step 6
    says "nearly all prior handles"; it is read as the stores, the
    network client, the key ring and every subsystem handle of steps 2
    to 5, that is all but the key store, which registrars reach only
    through the key ring. *)
Definition declared_deps (f : fn) : list kind :=
  match f with
  | SetupRoomServerComponent => [KBase]
  | SetupEDUServerComponent => [KBase]
  | SetupAppServiceAPIComponent =>
      [KAccountDB; KDeviceDB; KFederation; KAlias; KQuery; KTxnCache]
  | SetupFederationSenderComponent => [KFederation; KQuery]
  | SetupClientAPIComponent =>
      [KAccountDB; KDeviceDB; KFederation; KKeyRing; KAlias; KInput;
       KQuery; KEDUInput; KASQuery; KFedSender]
  | SetupFederationAPIComponent =>
      [KAlias; KInput; KQuery; KASQuery; KFedSender; KEDUProducer]
  | SetupMediaAPIComponent => [KDeviceDB]
  | SetupPublicRoomsAPIComponent => [KPublicRoomsDB; KQuery; KFederation]
  | SetupSyncAPIComponent =>
      [KDeviceDB; KAccountDB; KQuery; KFederation; KCfg]
  | _ => []
  end.

Definition handle_eqb (a b : kind * nat) : bool :=
  kind_eqb (fst a) (fst b) && Nat.eqb (snd a) (snd b).

Definition mem_handle (h : kind * nat) (l : list (kind * nat)) : bool :=
  existsb (handle_eqb h) l.

(** The handles a list of results carries. *)
Fixpoint handles_of (vs : list value) : list (kind * nat) :=
  match vs with
  | [] => []
  | v :: vs' =>
      match handle_of v with
      | Some h => h :: handles_of vs'
      | None => handles_of vs'
      end
  end.

(** The handles constructed by the calls of a trace. *)
Fixpoint produced (t : list event) : list (kind * nat) :=
  match t with
  | [] => []
  | ECall _ _ rets :: t' => handles_of rets ++ produced t'
  | _ :: t' => produced t'
  end.

(** An argument is in order if it refers to a handle constructed
    before.  The one argument that is no handle is the literal [nil] of
    line 79. *)
Definition arg_ok (seen : list (kind * nat)) (f : fn) (a : value) : bool :=
  match handle_of a with
  | Some h => mem_handle h seen
  | None => is_nil a && fn_eqb f SetupPublicRoomsAPIComponent
  end.

(** A declared dependency is in order if one of the arguments is a
    handle of that kind constructed before. *)
Definition dep_ok (seen : list (kind * nat)) (args : list value) (k : kind)
  : bool :=
  existsb (fun a => match handle_of a with
                    | Some h => kind_eqb k (fst h) && mem_handle h seen
                    | None => false
                    end) args.

Definition call_ok (seen : list (kind * nat)) (f : fn) (args : list value)
  : bool :=
  forallb (arg_ok seen f) args && forallb (dep_ok seen args) (declared_deps f).

(** Scan a trace, oldest event first, with the handles seen so far. *)
Fixpoint deps_ok (seen : list (kind * nat)) (t : list event) : bool :=
  match t with
  | [] => true
  | ECall f args rets :: t' =>
      (if is_registrar f then call_ok seen f args else true)
      && deps_ok (seen ++ handles_of rets) t'
  | _ :: t' => deps_ok seen t'
  end.

(** The handle [h] was returned by a call that sits before index [i]. *)
Definition constructed_before (t : list event) (i : nat) (h : kind * nat)
  : Prop :=
  exists j f args rets v,
    j < i /\ nth_error t j = Some (ECall f args rets) /\
    In v rets /\ handle_of v = Some h.

Definition ev_anycall (e : event) : bool :=
  match e with ECall _ _ _ => true | _ => false end.

(** ** The invariant of the launch phase *)

Definition extend (s0 : GoState) (tl : list event) : GoState :=
  mkGoState (next_id s0) (ncalls s0) (apimux s0) (DefaultServeMux s0)
            (defers s0) (trace s0 ++ tl).

(** How often a goroutine in a given state has been launched, has
    entered and has left ListenAndServe[TLS]. *)
Definition expected (st : option gstate) : nat * nat * nat :=
  match st with
  | None => (0, 0, 0)
  | Some GStart => (1, 0, 0)
  | Some (GListening _) => (1, 1, 0)
  | Some (GReturned _ _) => (1, 1, 1)
  end.

Definition tally (g : listener) (t : list event) : nat * nat * nat :=
  (count (ev_go g) t, count (ev_listen g) t, count (ev_return g) t).

Definition server_of (st : option gstate) : option Server :=
  match st with
  | Some (GListening s) | Some (GReturned s _) => Some s
  | _ => None
  end.

Definition launched (w : World) (g : listener) (c : mainpc) : bool :=
  match g, c with
  | Plain, (AtTLSCheck | AtSelect) => true
  | TLS, AtSelect => tls_configured w
  | _, _ => false
  end.

Definition is_some {A} (o : option A) : bool :=
  match o with Some _ => true | None => false end.

Record g_inv (w : World) (g : listener) (c : mainpc)
    (st : option gstate) (tl : list event) : Prop := mk_g_inv {
  gi_launched : is_some st = launched w g c;
  gi_tally : tally g tl = expected st;
  gi_quiet : st = None \/ st = Some GStart -> count (ev_serve g) tl = 0;
  gi_server : forall s, server_of st = Some s -> s = new_server w g
}.

Definition exit_inv (p : Proc) (tl : list event) : Prop :=
  match exited p with
  | None => count ev_exit tl = 0
  | Some c =>
      c = 1 /\
      exists g srv err tl',
        goroutine p g = Some (GReturned srv err) /\
        tl = tl' ++ [ELog FatalLevel "" (VErr err); EExit 1] /\
        count ev_exit tl' = 0
  end.

Record launch_inv (w : World) (mx : ServeMux) (p : Proc)
    (tl : list event) : Prop := mk_launch_inv {
  li_pc : pc p <> AtSetup;
  li_events : forallb launch_event tl = true;
  li_serve : forall g path h,
      In (EServe g path h) tl -> h = mux_match mx path;
  li_plain : g_inv w Plain (pc p) (plain_g p) tl;
  li_tls : g_inv w TLS (pc p) (tls_g p) tl;
  li_exit : exit_inv p tl
}.

(** Every reachable process state has one of three shapes. *)
Inductive Inv (w : World) (p : Proc) : Prop :=
| inv_init : p = init_proc -> Inv w p
| inv_crashed s :
    main_setup w init_state = (Panicking, s) ->
    p = mkProc (crash s) AtSetup None None (Some 2) ->
    Inv w p
| inv_running s0 tl :
    main_setup w init_state = (Ok tt, s0) ->
    gs p = extend s0 tl ->
    launch_inv w (DefaultServeMux s0) p tl ->
    Inv w p.

Definition ev_anyhandle (e : event) : bool :=
  match e with EHandle _ _ => true | _ => false end.

(** Events that only occur once the public rooms store is there: the
    public rooms registrar, every later registrar, the router
    assembly, and everything a listener does. *)
Definition after_store (e : event) : bool :=
  ev_call SetupPublicRoomsAPIComponent e || ev_call SetupSyncAPIComponent e
  || ev_call WrapHandlerInCORS e || ev_anyhandle e
  || match e with
     | EGo _ | EListen _ _ | EServe _ _ _ | EReturn _ _ => true
     | _ => false
     end.

(** The tail of the trace when the store connection failure ends the
    process. *)
Definition store_failure_tail (msg : string) : list event :=
  [ ELog PanicLevel "failed to connect to public rooms db" (VErr msg);
    EPanic;
    ERunDeferred Close (VHandle KBase 1);
    EExit 2 ].

(** The two handlers [main] installs: the merged mux behind the
    cross-origin wrapper, and the metrics handler behind basic
    authentication. *)
Definition base_APIMux : value := VField (VHandle KBase 1) "APIMux".
Definition merged_handler : value := VWrapCORS base_APIMux.
Definition metrics_handler : value :=
  VWrapBasicAuth VPromHandler
                 (VField (VField (VHandle KCfg 0) "Metrics") "BasicAuth").


(** The transaction caches handed to a function: the arguments of kind
    [KTxnCache] of its calls. *)
Definition is_txn_cache (v : value) : bool :=
  match handle_of v with
  | Some (KTxnCache, _) => true
  | _ => false
  end.

Fixpoint cache_args (f : fn) (t : list event) : list value :=
  match t with
  | [] => []
  | ECall f' args _ :: t' =>
      (if fn_eqb f f' then filter is_txn_cache args else [])
      ++ cache_args f t'
  | _ :: t' => cache_args f t'
  end.

(** The caches [transactions.New] returned, oldest first. *)
Fixpoint caches_built (t : list event) : list value :=
  match t with
  | [] => []
  | ECall transactions_New _ rets :: t' => rets ++ caches_built t'
  | _ :: t' => caches_built t'
  end.

(** This definition follows the words of the claim, not the code: the
    application-service bridge and the client-facing API receive the
    same cache instance. *)
Definition receive_same_cache (t : list event) : Prop :=
  exists c,
    In c (cache_args SetupAppServiceAPIComponent t) /\
    In c (cache_args SetupClientAPIComponent t).

Definition same_instance (a b : value) : bool :=
  match handle_of a, handle_of b with
  | Some x, Some y => handle_eqb x y
  | _, _ => false
  end.

Definition share_a_cache (t : list event) : bool :=
  existsb (fun a => existsb (same_instance a)
                            (cache_args SetupClientAPIComponent t))
          (cache_args SetupAppServiceAPIComponent t).

(** Events of the TLS listener. *)
Definition about_tls (e : event) : bool :=
  ev_go TLS e || ev_listen TLS e || ev_serve TLS e || ev_return TLS e.

(** ** Sample worlds *)

Definition five_minutes : Z := 300 * 1000000000.

(** No flag on the command line, metrics off, every call returns. *)
Definition w_default : World :=
  mkWorld None None None None false None quiet five_minutes.

(** Certificate and key given, metrics on. *)
Definition w_tls : World :=
  mkWorld None None (Some "server.crt") (Some "server.key") true None
          quiet five_minutes.

(** A certificate but no key. *)
Definition w_cert_only : World :=
  mkWorld None None (Some "server.crt") None false None quiet five_minutes.

(** The public rooms store cannot be reached. *)
Definition w_dbfail : World :=
  mkWorld None None (Some "server.crt") (Some "server.key") true
          (Some "connection refused") quiet five_minutes.

(** The state a schedule leads to; [init_proc] if it cannot run. *)
Definition after (w : World) (sched : list action) : Proc :=
  match run w sched init_proc with
  | Some p => p
  | None => init_proc
  end.

(** ** Reading more from traces *)

(** The state after the first step of the process: what [main_setup]
    left if it returned, the crashed state if it panicked. *)
Definition first_state (rs : result unit * GoState) : GoState :=
  match fst rs with
  | Ok _ => snd rs
  | Panicking => crash (snd rs)
  end.

(** The values an event hands to code outside [main]. *)
Definition uses (e : event) : list value :=
  match e with
  | ECall _ args _ | ECallPanic _ args => args
  | EDefer _ recv | ERunDeferred _ recv => [recv]
  | _ => []
  end.




(** The registrars invoked, in trace order, whether the call returned
    or panicked. *)
Fixpoint registrar_calls (t : list event) : list fn :=
  match t with
  | [] => []
  | (ECall f _ _ | ECallPanic f _) :: t' =>
      if is_registrar f then f :: registrar_calls t'
      else registrar_calls t'
  | _ :: t' => registrar_calls t'
  end.

Fixpoint prefix_b (l r : list fn) : bool :=
  match l, r with
  | [], _ => true
  | x :: l', y :: r' => fn_eqb x y && prefix_b l' r'
  | _ :: _, [] => false
  end.

(** The handles used by the events of a trace. *)
Fixpoint used_handles (t : list event) : list (kind * nat) :=
  match t with
  | [] => []
  | e :: t' => handles_of (uses e) ++ used_handles t'
  end.

(** Two handles of one kind are one instance, transaction caches
    apart. *)
Definition same_if_same_kind (x y : kind * nat) : bool :=
  negb (kind_eqb (fst x) (fst y))
  || Nat.eqb (snd x) (snd y)
  || kind_eqb (fst x) KTxnCache.

Definition one_per_kind (hs : list (kind * nat)) : bool :=
  forallb (fun x => forallb (same_if_same_kind x) hs) hs.


Definition returned (rs : result unit * GoState) : bool :=
  match fst rs with Ok _ => true | Panicking => false end.

Definition ev_handle (pattern : string) (e : event) : bool :=
  match e with EHandle q _ => String.eqb pattern q | _ => false end.

(** Events of lines 86 to 88: the metrics handler is made, wrapped and
    registered. *)
Definition ev_metrics (e : event) : bool :=
  ev_call promhttp_Handler e || ev_call WrapHandlerInBasicAuth e
  || ev_handle "/metrics" e.

(** ** How a crash ends *)








(** ** The order of events *)

(** A monitor that reads a trace, oldest event first, and accepts it
    only if the listener events come in the order the goroutine bodies
    prescribe.  It remembers how far each listener has come, the
    previous event, and whether the process has exited. *)
Inductive phase := PhNone | PhLaunched | PhListening | PhReturned.

Definition phase_of (st : option gstate) : phase :=
  match st with
  | None => PhNone
  | Some GStart => PhLaunched
  | Some (GListening _) => PhListening
  | Some (GReturned _ _) => PhReturned
  end.

Definition phase_eqb (a b : phase) : bool :=
  match a, b with
  | PhNone, PhNone | PhLaunched, PhLaunched
  | PhListening, PhListening | PhReturned, PhReturned => true
  | _, _ => false
  end.

Record mon := mkMon {
  m_plain : phase;
  m_tls : phase;
  m_prev : option event;
  m_dead : bool
}.

Definition mon0 : mon := mkMon PhNone PhNone None false.

Definition m_phase (m : mon) (g : listener) : phase :=
  match g with Plain => m_plain m | TLS => m_tls m end.

(** Move listener [g] to phase [ph], with [e] as the previous event. *)
Definition advance (m : mon) (g : listener) (ph : phase) (e : event) : mon :=
  match g with
  | Plain => mkMon ph (m_tls m) (Some e) (m_dead m)
  | TLS => mkMon (m_plain m) ph (Some e) (m_dead m)
  end.

Definition is_listening_log (prev : option event) (srv : Server) : bool :=
  match prev with
  | Some (ELog InfoLevel msg (VStr a)) =>
      String.eqb msg "Listening on " && String.eqb a (Addr srv)
  | _ => false
  end.

Definition is_fatal_log (prev : option event) : bool :=
  match prev with
  | Some (ELog FatalLevel _ (VErr _)) => true
  | _ => false
  end.

(** Is [srv] the server literal of listener [g]? *)
Definition is_new_server (w : World) (g : listener) (srv : Server) : bool :=
  String.eqb (Addr srv) (Addr (new_server w g))
  && Z.eqb (WriteTimeout srv) (HTTPServerTimeout w)
  && negb (is_some (Handler srv)).

Definition mon_step (w : World) (m : mon) (e : event) : option mon :=
  if m_dead m then None
  else
    match e with
    | EGo Plain =>
        if phase_eqb (m_plain m) PhNone && phase_eqb (m_tls m) PhNone
        then Some (advance m Plain PhLaunched e) else None
    | EGo TLS =>
        if negb (phase_eqb (m_plain m) PhNone) && phase_eqb (m_tls m) PhNone
        then Some (advance m TLS PhLaunched e) else None
    | EListen g srv =>
        if phase_eqb (m_phase m g) PhLaunched
           && is_listening_log (m_prev m) srv
           && is_new_server w g srv
        then Some (advance m g PhListening e) else None
    | EServe g _ _ =>
        if phase_eqb (m_phase m g) PhListening
        then Some (advance m g PhListening e) else None
    | EReturn g _ =>
        if phase_eqb (m_phase m g) PhListening
        then Some (advance m g PhReturned e) else None
    | EExit c =>
        if Nat.eqb c 2
           || (Nat.eqb c 1 && is_fatal_log (m_prev m)
               && (phase_eqb (m_plain m) PhReturned
                   || phase_eqb (m_tls m) PhReturned))
        then Some (mkMon (m_plain m) (m_tls m) (Some e) true) else None
    | _ => Some (mkMon (m_plain m) (m_tls m) (Some e) (m_dead m))
    end.

Fixpoint mon_run (w : World) (m : mon) (t : list event) : option mon :=
  match t with
  | [] => Some m
  | e :: t' =>
      match mon_step w m e with
      | Some m' => mon_run w m' t'
      | None => None
      end
  end.

(** The monitor state that matches a process state. *)
Definition mon_matches (m : mon) (p : Proc) : Prop :=
  m_plain m = phase_of (plain_g p) /\
  m_tls m = phase_of (tls_g p) /\
  m_dead m = is_some (exited p).

Definition phase_tally (ph : phase) : nat * nat * nat :=
  match ph with
  | PhNone => (0, 0, 0)
  | PhLaunched => (1, 0, 0)
  | PhListening => (1, 1, 0)
  | PhReturned => (1, 1, 1)
  end.

Definition tally_add (a b : nat * nat * nat) : nat * nat * nat :=
  let '(a1, a2, a3) := a in
  let '(b1, b2, b3) := b in
  (a1 + b1, a2 + b2, a3 + b3).

(** What the monitor says of the first state. *)
Definition first_monitored (w : World) (rs : result unit * GoState) : bool :=
  match mon_run w mon0 (trace (first_state rs)) with
  | Some m =>
      phase_eqb (m_plain m) PhNone && phase_eqb (m_tls m) PhNone
      && Bool.eqb (m_dead m) (negb (returned rs))
  | None => false
  end.

(** ** net/http: from a request to its handler *)

(** What decides which handler answers a request is net/http's, not
    this repository's: [path.Clean], [cleanPath], [ServeMux.Handler]
    with its two redirects, [ServeMux.ServeHTTP] and the server's own
    dispatch.  They are written here after the library, with [lookup]
    and [mux_match] above as the map access and [ServeMux.match]. *)

Definition slash : ascii := "/"%char.
Definition dot : ascii := "."%char.

(** Does the path element end here: at the end of the path or at a
    slash? *)
Definition ends_elem (rest : list ascii) : bool :=
  match rest with
  | [] => true
  | c :: _ => Ascii.eqb c slash
  end.

(** The output buffer of [path.Clean] is held last byte first.
    [backtrack last out dotdot] is the loop after [out.w--]: [last] is
    the byte just dropped; bytes are dropped until a slash has been
    dropped or [dotdot] is reached. *)
Fixpoint backtrack (last : ascii) (out : list ascii) (dotdot : nat)
  : list ascii :=
  match out with
  | [] => []
  | c :: rest =>
      if Nat.ltb dotdot (List.length out) && negb (Ascii.eqb last slash)
      then backtrack c rest dotdot
      else out
  end.

(** The loop of [path.Clean] over the unread bytes.  [in_elem] says
    that a real path element is being copied (the inner copy loop of
    the default case). *)
Fixpoint clean_go (rooted in_elem : bool) (rest out : list ascii)
    (dotdot : nat) : list ascii :=
  match rest with
  | [] => out
  | c :: rest' =>
      if in_elem then
        if Ascii.eqb c slash
        then clean_go rooted false rest' out dotdot
        else clean_go rooted true rest' (c :: out) dotdot
      else
        let real :=
          let out1 :=
            if (rooted && negb (Nat.eqb (List.length out) 1))
               || (negb rooted && negb (Nat.eqb (List.length out) 0))
            then slash :: out else out in
          clean_go rooted true rest' (c :: out1) dotdot in
        if Ascii.eqb c slash then
          (* empty path element *)
          clean_go rooted false rest' out dotdot
        else if Ascii.eqb c dot && ends_elem rest' then
          (* . element *)
          clean_go rooted false rest' out dotdot
        else
          match rest' with
          | c2 :: r2 =>
              if Ascii.eqb c dot && Ascii.eqb c2 dot && ends_elem r2 then
                (* .. element: remove to last / *)
                if Nat.ltb dotdot (List.length out) then
                  clean_go rooted false r2
                           (match out with
                            | b :: o => backtrack b o dotdot
                            | [] => []
                            end) dotdot
                else if rooted then clean_go rooted false r2 out dotdot
                else
                  let out1 :=
                    if Nat.ltb 0 (List.length out) then slash :: out
                    else out in
                  clean_go rooted false r2 (dot :: dot :: out1)
                           (2 + List.length out1)
              else real
          | [] => real
          end
  end.

Definition path_Clean (p : string) : string :=
  match list_ascii_of_string p with
  | [] => "."
  | c :: rest =>
      let out :=
        if Ascii.eqb c slash
        then clean_go true false rest [slash] 1
        else clean_go false false (c :: rest) [] 0 in
      match out with
      | [] => "."
      | _ => string_of_list_ascii (rev out)
      end
  end.

(** [cleanPath] of net/http: the canonical path, with the trailing
    slash that [path.Clean] removes put back. *)
Definition cleanPath (p : string) : string :=
  if String.eqb p "" then "/"
  else
    let p := if String.prefix "/" p then p else String.append "/" p in
    let np := path_Clean p in
    if ends_in_slash p && negb (String.eqb np "/") then
      if Nat.eqb (String.length p) (String.length np + 1)
         && String.prefix np p
      then p
      else String.append np "/"
    else np.

(** A request as the mux sees it.  [stripped_host] is
    [stripHostPort(r.Host)]; the server computes it, here it comes with
    the request, so that a statement over all requests covers the real
    ones. *)
Record Request := mkRequest {
  Method : string;
  RequestURI : string;
  Host : string;
  stripped_host : string;
  URL_Host : string;
  URL_Path : string
}.

(** What answers a request. *)
Inductive answer :=
| Serves (h : value)            (* a registered handler *)
| RedirectTo (path : string)    (* RedirectHandler, 301 *)
| NotFound                      (* NotFoundHandler *)
| BadRequest                    (* 400 from [ServeMux.ServeHTTP] *)
| GlobalOptions.                (* the server's answer to [OPTIONS *] *)

Definition in_mux (mx : ServeMux) (c : string) : bool :=
  is_some (lookup c (mux_m mx)).

(** [mux.hosts]: some pattern does not start with a slash. *)
Definition mux_hosts (mx : ServeMux) : bool :=
  existsb (fun e => negb (String.prefix "/" (fst e))) (mux_m mx).

Definition shouldRedirect (mx : ServeMux) (host path : string) : bool :=
  if in_mux mx path || in_mux mx (String.append host path) then false
  else if Nat.eqb (String.length path) 0 then false
  else if in_mux mx (String.append path "/")
          || in_mux mx (String.append (String.append host path) "/")
       then negb (ends_in_slash path)
       else false.

(** [ServeMux.handler]: a host-specific pattern first, then the
    generic ones, then not found. *)
Definition mux_handler (mx : ServeMux) (host path : string) : answer :=
  match (if mux_hosts mx then mux_match mx (String.append host path)
         else None) with
  | Some h => Serves h
  | None =>
      match mux_match mx path with
      | Some h => Serves h
      | None => NotFound
      end
  end.

Definition ServeMux_Handler (mx : ServeMux) (r : Request) : answer :=
  if String.eqb (Method r) "CONNECT" then
    if shouldRedirect mx (URL_Host r) (URL_Path r)
    then RedirectTo (String.append (URL_Path r) "/")
    else mux_handler mx (Host r) (URL_Path r)
  else
    let host := stripped_host r in
    let path := cleanPath (URL_Path r) in
    if shouldRedirect mx host path
    then RedirectTo (String.append path "/")
    else if negb (String.eqb path (URL_Path r)) then RedirectTo path
    else mux_handler mx host (URL_Path r).

Definition ServeMux_ServeHTTP (mx : ServeMux) (r : Request) : answer :=
  if String.eqb (RequestURI r) "*" then BadRequest
  else ServeMux_Handler mx r.

(** [serverHandler.ServeHTTP]: the server's handler, or the default
    mux when it has none. *)
Definition server_answer (srv : Server) (dmux : ServeMux) (r : Request)
  : answer :=
  if String.eqb (RequestURI r) "*" && String.eqb (Method r) "OPTIONS"
  then GlobalOptions
  else match Handler srv with
       | Some h => Serves h
       | None => ServeMux_ServeHTTP dmux r
       end.

(** ** The default mux the listeners find *)

(** Patterns may be on [http.DefaultServeMux] before [main] runs: the
    init functions of imported packages register them, and none of
    that is in this file.  [pre] stands for that mux.  What the
    listeners serve is [pre] with the registrations of [main] made on
    it, in the order [main] made them; [None] if one of them collides
    with a pattern of [pre]. *)
Definition register_all (entries : list (string * value)) (pre : ServeMux)
  : option ServeMux :=
  fold_left (fun acc e =>
               match acc with
               | Some mx => mux_Handle mx (fst e) (snd e)
               | None => None
               end)
            entries (Some pre).

Definition served_mux (pre : ServeMux) (s : GoState) : option ServeMux :=
  register_all (rev (mux_m (DefaultServeMux s))) pre.

(** No pattern of [pre] lays claim to the request: none is
    host-specific, none is the path or the path with a slash added, and
    no slash-terminated one is a prefix of the path. *)
Definition foreign_ok (host path q : string) : bool :=
  String.prefix "/" q
  && negb (String.eqb path q)
  && negb (String.eqb (String.append path "/") q)
  && negb (String.eqb (String.append (String.append host path) "/") q).

Definition unclaimed (pre : ServeMux) (host path : string) : bool :=
  forallb (fun e => foreign_ok host path (fst e)) (mux_m pre)
  && forallb (fun e => negb (String.prefix (fst e) path)) (mux_es pre).

(** An ordinary request: not [CONNECT], not for [*]. *)
Definition ordinary (r : Request) : bool :=
  negb (String.eqb (Method r) "CONNECT")
  && negb (String.eqb (RequestURI r) "*").

(** [GET path] for host [localhost:8008]. *)
Definition GET (path : string) : Request :=
  mkRequest "GET" path "localhost:8008" "localhost" "" path.

(** This definition follows the words of the claim, not the code:
    every path other than "/metrics" is served through the
    cross-origin wrapper of the merged mux, on either listener. *)
Definition every_other_path_behind_cors (w : World) (mx : ServeMux) : Prop :=
  forall g r,
    URL_Path r <> "/metrics" ->
    server_answer (new_server w g) mx r = Serves merged_handler.

(** * Proofs *)

(** [main_setup] is only ever evaluated as a whole. *)
Opaque main_setup setup_at assembled.

Ltac peel pn k fuel :=
  lazymatch fuel with
  | O => idtac
  | S ?f => destruct (pn k); [vm_compute; reflexivity | peel pn (S k) f]
  end.

Lemma main_setup_canon (w : World) :
  main_setup w init_state =
  setup_at (metrics_enabled w) (publicrooms_err w) (first_panic (panics w)).
Proof.
  destruct w as [fh fhs fc fk me pe pn tmo].
  cbn [metrics_enabled publicrooms_err panics].
  destruct me, pe as [msg|]; vm_compute;
    peel pn 0 25; vm_compute; reflexivity.
Qed.

(** A property of every run of [main_setup] can be checked on the
    canonical worlds. *)
Lemma main_setup_cases
    (P : bool -> option string -> result unit * GoState -> Prop) :
  (forall me pe k, P me pe (setup_at me pe k)) ->
  forall w, P (metrics_enabled w) (publicrooms_err w)
              (main_setup w init_state).
Proof.
  intros H w. rewrite main_setup_canon. apply H.
Qed.

Ltac enum_k k fuel tac :=
  lazymatch fuel with
  | O => idtac
  | S ?f => destruct k as [|k]; [tac | enum_k k f tac]
  end.

(** Enumerate metrics on/off, store error or not, and the position of
    the first panic; [tac] closes each case. *)
Ltac enum_setup tac :=
  let me := fresh "me" in
  let pe := fresh "pe" in
  let k := fresh "k" in
  let msg := fresh "msg" in
  intros me pe k;
  destruct me, pe as [msg|], k as [k|];
  try (enum_k k 26 tac); tac.

Lemma setup_ok_canon w s0 :
  main_setup w init_state = (Ok tt, s0) ->
  publicrooms_err w = None /\ s0 = assembled (metrics_enabled w).
Proof.
  revert s0.
  apply (main_setup_cases
           (fun me pe rs => forall s0, rs = (Ok tt, s0) ->
                                       pe = None /\ s0 = assembled me)).
  enum_setup ltac:(vm_compute; intros s0 E; first [discriminate E | injection E as <-; split; reflexivity]).
Qed.

(** ** Counting and traces *)

Lemma count_app f (a b : list event) :
  count f (a ++ b) = count f a + count f b.
Proof.
  induction a as [|e a IH]; simpl; [reflexivity|].
  rewrite IH. lia.
Qed.

Lemma count_zero_forall f (t : list event) :
  count f t = 0 <-> forall e, In e t -> f e = false.
Proof.
  induction t as [|e t IH]; simpl.
  - split; [intros _ e []|reflexivity].
  - split.
    + intros H x [<-|Hx].
      * destruct (f e); [discriminate|reflexivity].
      * apply IH; [|assumption]. destruct (f e); [discriminate|assumption].
    + intros H. rewrite (H e (or_introl eq_refl)). simpl.
      apply IH. intros x Hx. apply H. right. assumption.
Qed.

Lemma count_pos_in f (t : list event) :
  0 < count f t -> exists e, In e t /\ f e = true.
Proof.
  induction t as [|e t IH]; simpl; [lia|].
  destruct (f e) eqn:E.
  - intros _. exists e. split; [left; reflexivity|assumption].
  - intros H. destruct (IH H) as [x [Hx Hf]].
    exists x. split; [right|]; assumption.
Qed.

Lemma in_count_pos f (t : list event) e :
  In e t -> f e = true -> 0 < count f t.
Proof.
  induction t as [|x t IH]; simpl; [intros []|].
  intros [->|H] Hf.
  - rewrite Hf. lia.
  - specialize (IH H Hf). lia.
Qed.

Lemma forallb_count_zero (f g : event -> bool) (t : list event) :
  forallb f t = true ->
  (forall e, f e = true -> g e = false) ->
  count g t = 0.
Proof.
  intros Hall Hfg. apply count_zero_forall. intros e He.
  apply Hfg. rewrite forallb_forall in Hall. apply Hall. assumption.
Qed.

Lemma emit_extend e s0 tl :
  emit_state e (extend s0 tl) = extend s0 (tl ++ [e]).
Proof.
  unfold emit_state, extend. simpl. rewrite <- app_assoc. reflexivity.
Qed.

Lemma extend_nil s0 : extend s0 [] = s0.
Proof.
  destruct s0. unfold extend. simpl. rewrite app_nil_r. reflexivity.
Qed.

(** ** The invariant holds in every reachable state *)

Lemma g_inv_events w g c c' st tl evs :
  g_inv w g c st tl ->
  launched w g c' = launched w g c ->
  tally g evs = (0, 0, 0) ->
  count (ev_serve g) evs = 0 \/ (exists s, st = Some (GListening s)) ->
  g_inv w g c' st (tl ++ evs).
Proof.
  intros [Hl Ht Hq Hs] Hc He Hsv.
  constructor.
  - rewrite Hc. assumption.
  - unfold tally in *. rewrite !count_app.
    injection He as -> -> ->. rewrite !Nat.add_0_r. assumption.
  - intros Hst. rewrite count_app, (Hq Hst).
    destruct Hsv as [->|[s ->]]; [reflexivity|].
    destruct Hst; discriminate.
  - assumption.
Qed.

(** Appending events that are not [EServe] keeps what is known about
    the served requests. *)
Ltac old_serves Hsv :=
  let g := fresh "g" in
  let path := fresh "path" in
  let h := fresh "h" in
  let Hin := fresh "Hin" in
  intros g path h Hin; apply in_app_or in Hin;
  destruct Hin as [Hin|Hin];
  [ exact (Hsv _ _ _ Hin)
  | simpl in Hin;
    repeat (destruct Hin as [Hin|Hin]; [discriminate Hin|]);
    destruct Hin ].

Lemma inv_step w p a p' : Inv w p -> exec w a p = Some p' -> Inv w p'.
Proof.
  intros HI Hex.
  destruct HI as [-> | s Hs -> | s0 tl Hs Hgs HL].
  - (* the initial state: only [main] can move *)
    destruct a as [|g|g ?|g ?|g]; try (destruct g; discriminate).
    unfold exec, main_step in Hex. simpl in Hex.
    destruct (main_setup w init_state) as [[[]|] s] eqn:E;
      injection Hex as <-.
    + apply inv_running with (s0 := s) (tl := []).
      * assumption.
      * simpl. symmetry. apply extend_nil.
      * constructor; simpl; try easy.
        all: constructor; simpl; try easy.
    + apply inv_crashed with (s := s); [assumption|reflexivity].
  - discriminate.
  - destruct p as [g0 c pg tg ex]. simpl in Hgs. subst g0.
    destruct HL as [Hpc Hev Hsv Hp Ht Hx]. simpl in *.
    unfold exec in Hex. simpl in Hex.
    destruct ex as [code|]; [discriminate|].
    unfold exit_inv in Hx. simpl in Hx.
    destruct a as [|g|g path|g err|g].
    + (* main *)
      unfold main_step in Hex. simpl in Hex.
      destruct c; try congruence.
      * (* go plain *)
        injection Hex as <-. rewrite emit_extend.
        eapply inv_running; [eassumption|reflexivity|].
        pose proof (gi_launched _ _ _ _ _ Hp) as Hl. simpl in Hl.
        destruct pg; [discriminate|].
        constructor; simpl.
        -- discriminate.
        -- rewrite forallb_app, Hev. reflexivity.
        -- intros g path h Hin. apply in_app_or in Hin.
           destruct Hin as [Hin|[Hin|[]]]; [eauto|discriminate].
        -- destruct Hp as [_ Htl Hq _]. constructor; simpl.
           ++ reflexivity.
           ++ unfold tally in *. rewrite !count_app. simpl.
              injection Htl as -> -> ->. reflexivity.
           ++ intros _. rewrite count_app. simpl.
              rewrite Hq; [reflexivity|left; reflexivity].
           ++ discriminate.
        -- apply (g_inv_events _ _ _ _ _ _ _ Ht); [reflexivity..|].
           left; reflexivity.
        -- unfold exit_inv. simpl. rewrite count_app, Hx. reflexivity.
      * (* the TLS check *)
        destruct (tls_configured w) eqn:Etls; injection Hex as <-.
        -- rewrite emit_extend.
           eapply inv_running; [eassumption|reflexivity|].
           pose proof (gi_launched _ _ _ _ _ Ht) as Hl. simpl in Hl.
           destruct tg; [discriminate|].
           constructor; simpl.
           ++ discriminate.
           ++ rewrite forallb_app, Hev. reflexivity.
           ++ intros g path h Hin. apply in_app_or in Hin.
              destruct Hin as [Hin|[Hin|[]]]; [eauto|discriminate].
           ++ apply (g_inv_events _ _ _ _ _ _ _ Hp); [reflexivity..|].
              left; reflexivity.
           ++ destruct Ht as [_ Htl Hq _]. constructor; simpl.
              ** rewrite Etls. reflexivity.
              ** unfold tally in *. rewrite !count_app. simpl.
                 injection Htl as -> -> ->. reflexivity.
              ** intros _. rewrite count_app. simpl.
                 rewrite Hq; [reflexivity|left; reflexivity].
              ** discriminate.
           ++ unfold exit_inv. simpl. rewrite count_app, Hx. reflexivity.
        -- eapply inv_running; [eassumption|reflexivity|].
           constructor; simpl; try assumption.
           ++ discriminate.
           ++ destruct Hp as [Hl Htl Hq Hsrv].
              constructor; try assumption.
           ++ destruct Ht as [Hl Htl Hq Hsrv].
              constructor; try assumption.
              simpl in *. rewrite Etls. assumption.
    + (* a goroutine enters its body *)
      destruct g; simpl in Hex.
      * destruct pg as [[| |]|]; try discriminate. injection Hex as <-.
        rewrite !emit_extend, <- app_assoc. simpl.
        eapply inv_running; [eassumption|reflexivity|].
        constructor; simpl; try assumption.
        -- rewrite forallb_app, Hev. reflexivity.
        -- old_serves Hsv.
        -- destruct Hp as [Hl Htl _ _]. constructor; simpl.
           ++ assumption.
           ++ unfold tally in *. rewrite !count_app. simpl.
              injection Htl as -> -> ->. reflexivity.
           ++ intros [H|H]; discriminate.
           ++ intros s E. injection E as <-. reflexivity.
        -- apply (g_inv_events _ _ _ _ _ _ _ Ht); [reflexivity..|].
           left; reflexivity.
        -- unfold exit_inv. simpl. rewrite count_app, Hx. reflexivity.
      * destruct tg as [[| |]|]; try discriminate. injection Hex as <-.
        rewrite !emit_extend, <- app_assoc. simpl.
        eapply inv_running; [eassumption|reflexivity|].
        constructor; simpl; try assumption.
        -- rewrite forallb_app, Hev. reflexivity.
        -- old_serves Hsv.
        -- apply (g_inv_events _ _ _ _ _ _ _ Hp); [reflexivity..|].
           left; reflexivity.
        -- destruct Ht as [Hl Htl _ _]. constructor; simpl.
           ++ assumption.
           ++ unfold tally in *. rewrite !count_app. simpl.
              injection Htl as -> -> ->. reflexivity.
           ++ intros [H|H]; discriminate.
           ++ intros s E. injection E as <-. reflexivity.
        -- unfold exit_inv. simpl. rewrite count_app, Hx. reflexivity.
    + (* a request is routed *)
      destruct g; simpl in Hex.
      * destruct pg as [[|srv|]|]; try discriminate. injection Hex as <-.
        rewrite !emit_extend.
        eapply inv_running; [eassumption|reflexivity|].
        pose proof (gi_server _ _ _ _ _ Hp srv eq_refl) as Hsrv.
        constructor; simpl; try assumption.
        -- rewrite forallb_app, Hev. reflexivity.
        -- intros g path0 h Hin. apply in_app_or in Hin.
           destruct Hin as [Hin|[Hin|[]]]; [eauto|].
           injection Hin as _ <- <-. subst srv. reflexivity.
        -- apply (g_inv_events _ _ _ _ _ _ _ Hp); [reflexivity..|].
           right. eexists. reflexivity.
        -- apply (g_inv_events _ _ _ _ _ _ _ Ht); [reflexivity..|].
           left; reflexivity.
        -- unfold exit_inv. simpl. rewrite count_app, Hx. reflexivity.
      * destruct tg as [[|srv|]|]; try discriminate. injection Hex as <-.
        rewrite !emit_extend.
        eapply inv_running; [eassumption|reflexivity|].
        pose proof (gi_server _ _ _ _ _ Ht srv eq_refl) as Hsrv.
        constructor; simpl; try assumption.
        -- rewrite forallb_app, Hev. reflexivity.
        -- intros g path0 h Hin. apply in_app_or in Hin.
           destruct Hin as [Hin|[Hin|[]]]; [eauto|].
           injection Hin as _ <- <-. subst srv. reflexivity.
        -- apply (g_inv_events _ _ _ _ _ _ _ Hp); [reflexivity..|].
           left; reflexivity.
        -- apply (g_inv_events _ _ _ _ _ _ _ Ht); [reflexivity..|].
           right. eexists. reflexivity.
        -- unfold exit_inv. simpl. rewrite count_app, Hx. reflexivity.
    + (* ListenAndServe[TLS] returns *)
      destruct g; simpl in Hex.
      * destruct pg as [[|srv|]|]; try discriminate. injection Hex as <-.
        rewrite !emit_extend.
        eapply inv_running; [eassumption|reflexivity|].
        constructor; simpl; try assumption.
        -- rewrite forallb_app, Hev. reflexivity.
        -- old_serves Hsv.
        -- destruct Hp as [Hl Htl _ Hsrv]. constructor; simpl.
           ++ assumption.
           ++ unfold tally in *. rewrite !count_app. simpl.
              injection Htl as -> -> ->. reflexivity.
           ++ intros [H|H]; discriminate.
           ++ exact Hsrv.
        -- apply (g_inv_events _ _ _ _ _ _ _ Ht); [reflexivity..|].
           left; reflexivity.
        -- unfold exit_inv. simpl. rewrite count_app, Hx. reflexivity.
      * destruct tg as [[|srv|]|]; try discriminate. injection Hex as <-.
        rewrite !emit_extend.
        eapply inv_running; [eassumption|reflexivity|].
        constructor; simpl; try assumption.
        -- rewrite forallb_app, Hev. reflexivity.
        -- old_serves Hsv.
        -- apply (g_inv_events _ _ _ _ _ _ _ Hp); [reflexivity..|].
           left; reflexivity.
        -- destruct Ht as [Hl Htl _ Hsrv]. constructor; simpl.
           ++ assumption.
           ++ unfold tally in *. rewrite !count_app. simpl.
              injection Htl as -> -> ->. reflexivity.
           ++ intros [H|H]; discriminate.
           ++ exact Hsrv.
        -- unfold exit_inv. simpl. rewrite count_app, Hx. reflexivity.
    + (* logrus.Fatal *)
      destruct g; simpl in Hex.
      * destruct pg as [[| |srv err]|]; try discriminate.
        injection Hex as <-. unfold logrus_Fatal.
        rewrite !emit_extend, <- app_assoc. simpl.
        eapply inv_running; [eassumption|reflexivity|].
        constructor; simpl; try assumption.
        -- rewrite forallb_app, Hev. reflexivity.
        -- old_serves Hsv.
        -- apply (g_inv_events _ _ _ _ _ _ _ Hp); [reflexivity..|].
           left; reflexivity.
        -- apply (g_inv_events _ _ _ _ _ _ _ Ht); [reflexivity..|].
           left; reflexivity.
        -- unfold exit_inv. simpl. split; [reflexivity|].
           exists Plain, srv, err, tl. auto.
      * destruct tg as [[| |srv err]|]; try discriminate.
        injection Hex as <-. unfold logrus_Fatal.
        rewrite !emit_extend, <- app_assoc. simpl.
        eapply inv_running; [eassumption|reflexivity|].
        constructor; simpl; try assumption.
        -- rewrite forallb_app, Hev. reflexivity.
        -- old_serves Hsv.
        -- apply (g_inv_events _ _ _ _ _ _ _ Hp); [reflexivity..|].
           left; reflexivity.
        -- apply (g_inv_events _ _ _ _ _ _ _ Ht); [reflexivity..|].
           left; reflexivity.
        -- unfold exit_inv. simpl. split; [reflexivity|].
           exists TLS, srv, err, tl. auto.
Qed.

Lemma reachable_inv w p : reachable w p -> Inv w p.
Proof.
  induction 1 as [|p a p' _ IH Hex].
  - apply inv_init. reflexivity.
  - eapply inv_step; eassumption.
Qed.

(** ** What every run of [main_setup] leaves behind *)

Lemma setup_trace_events w :
  forallb setup_event (trace (snd (main_setup w init_state))) = true.
Proof.
  apply (main_setup_cases
           (fun _ _ rs => forallb setup_event (trace (snd rs)) = true)).
  enum_setup ltac:(vm_compute; reflexivity).
Qed.

Lemma setup_deps_ok w :
  deps_ok [] (trace (snd (main_setup w init_state))) = true.
Proof.
  apply (main_setup_cases
           (fun _ _ rs => deps_ok [] (trace (snd rs)) = true)).
  enum_setup ltac:(vm_compute; reflexivity).
Qed.

Lemma setup_defers w :
  forallb (fun d => match d with (Close, VHandle KBase 1) => true
                               | _ => false end)
          (defers (snd (main_setup w init_state))) = true.
Proof.
  apply (main_setup_cases
           (fun _ _ rs =>
              forallb (fun d => match d with (Close, VHandle KBase 1) => true
                                           | _ => false end)
                      (defers (snd rs)) = true)).
  enum_setup ltac:(vm_compute; reflexivity).
Qed.

(** The trace of a reachable state: what [main_setup] left, then
    events of the launch phase or of the crash. *)
Lemma reachable_trace w p :
  reachable w p ->
  exists t0 tl,
    trace (gs p) = t0 ++ tl /\
    (t0 = [] \/ t0 = trace (snd (main_setup w init_state))) /\
    forallb (fun e => negb (setup_event e)) tl = true.
Proof.
  intros HR. destruct (reachable_inv _ _ HR) as [-> | s Hs -> | s0 tl Hs Hgs HL].
  - exists [], []. simpl. auto.
  - exists (trace s), (map (fun d => ERunDeferred (fst d) (snd d)) (defers s)
                       ++ [EExit 2]).
    split; [|split].
    + simpl. rewrite <- app_assoc. reflexivity.
    + right. rewrite Hs. reflexivity.
    + rewrite forallb_app. simpl. rewrite andb_true_r.
      rewrite forallb_forall. intros e He.
      apply in_map_iff in He. destruct He as [d [<- _]]. reflexivity.
  - exists (trace s0), tl.
    split; [|split].
    + rewrite Hgs. reflexivity.
    + right. rewrite Hs. reflexivity.
    + destruct HL as [_ Hev _ _ _ _].
      rewrite forallb_forall in *. intros e He. specialize (Hev e He).
      destruct e as [| | | | |[]| | | | | |]; try discriminate; reflexivity.
Qed.

(** ** C1: the build order *)

Lemma kind_eqb_eq a b : kind_eqb a b = true -> a = b.
Proof. destruct a, b; simpl; intros H; try discriminate H; reflexivity. Qed.

Lemma fn_eqb_eq a b : fn_eqb a b = true -> a = b.
Proof. destruct a, b; simpl; intros H; try discriminate H; reflexivity. Qed.

Lemma mem_handle_in h l : mem_handle h l = true -> In h l.
Proof.
  unfold mem_handle. rewrite existsb_exists.
  intros [x [Hx He]]. unfold handle_eqb in He.
  apply andb_true_iff in He. destruct He as [Hk Hn].
  apply kind_eqb_eq in Hk. apply Nat.eqb_eq in Hn.
  destruct h, x. simpl in *. subst. assumption.
Qed.

Lemma handles_of_in rets h :
  In h (handles_of rets) -> exists v, In v rets /\ handle_of v = Some h.
Proof.
  induction rets as [|v rets IH]; simpl; [intros []|].
  destruct (handle_of v) as [h'|] eqn:E.
  - intros [<-|H].
    + exists v. auto.
    + destruct (IH H) as [v' [Hv Hh]]. exists v'. auto.
  - intros H. destruct (IH H) as [v' [Hv Hh]]. exists v'. auto.
Qed.

Lemma produced_constructed t : forall i h,
  In h (produced (firstn i t)) -> constructed_before t i h.
Proof.
  induction t as [|e t IH]; intros i h H.
  - rewrite firstn_nil in H. destruct H.
  - destruct i as [|i]; [destruct H|].
    assert (Hrest : In h (produced (firstn i t)) -> constructed_before (e :: t) (S i) h).
    { intros H'. destruct (IH _ _ H') as (j & f & args & rets & v & Hj & Hn & Hv & Hh).
      exists (S j), f, args, rets, v. repeat split; try assumption. lia. }
    simpl in H. destruct e; auto.
    apply in_app_or in H. destruct H as [H|H]; [|auto].
    destruct (handles_of_in _ _ H) as [v [Hv Hh]].
    exists 0, f, args, rets, v. repeat split; try assumption. lia.
Qed.

Lemma deps_ok_sound t : forall seen,
  deps_ok seen t = true ->
  forall i f args rets,
    nth_error t i = Some (ECall f args rets) ->
    is_registrar f = true ->
    call_ok (seen ++ produced (firstn i t)) f args = true.
Proof.
  induction t as [|e t IH]; intros seen Hok i f args rets Hn Hr.
  - destruct i; discriminate.
  - destruct i as [|i]; simpl in Hn.
    + injection Hn as ->. simpl in Hok. rewrite Hr in Hok.
      apply andb_true_iff in Hok. simpl. rewrite app_nil_r. apply Hok.
    + destruct e; simpl in Hok |- *; try (eapply IH; eassumption).
      apply andb_true_iff in Hok. destruct Hok as [_ Hok].
      rewrite app_assoc. eapply IH; eassumption.
Qed.

Lemma deps_ok_app t : forall seen t',
  deps_ok seen t = true ->
  forallb (fun e => negb (ev_anycall e)) t' = true ->
  deps_ok seen (t ++ t') = true.
Proof.
  induction t as [|e t IH]; intros seen t' Hok Hno; simpl.
  - clear Hok. revert seen.
    induction t' as [|e t' IH']; intros seen; [reflexivity|].
    simpl in Hno. apply andb_true_iff in Hno. destruct Hno as [He Hno].
    destruct e; simpl in *; try discriminate; auto.
  - destruct e; simpl in Hok |- *; auto.
    apply andb_true_iff in Hok. destruct Hok as [H1 H2].
    rewrite H1. simpl. auto.
Qed.

Lemma reachable_deps_ok w p :
  reachable w p -> deps_ok [] (trace (gs p)) = true.
Proof.
  intros HR. destruct (reachable_trace _ _ HR) as (t0 & tl & -> & Ht0 & Htl).
  apply deps_ok_app.
  - destruct Ht0 as [->| ->]; [reflexivity|apply setup_deps_ok].
  - rewrite forallb_forall in *. intros e He. specialize (Htl e He).
    destruct e; try reflexivity. discriminate.
Qed.

(** C1.  In every reachable state, take any registrar call of the
    trace.  Every dependency that section 4.2 of the specification
    declares for that registrar is among the arguments as a handle that
    an earlier call of the trace returned, and every argument is such a
    handle, apart from the literal [nil] that line 79 passes to the
    public rooms registrar, which is not a declared dependency. *)
Theorem build_order_respects_dependencies w p :
  reachable w p ->
  forall i f args rets,
    nth_error (trace (gs p)) i = Some (ECall f args rets) ->
    is_registrar f = true ->
    (forall k, In k (declared_deps f) ->
       exists a n, In a args /\ handle_of a = Some (k, n) /\
                   constructed_before (trace (gs p)) i (k, n)) /\
    (forall a, In a args ->
       (exists h, handle_of a = Some h /\
                  constructed_before (trace (gs p)) i h) \/
       (a = VNil /\ f = SetupPublicRoomsAPIComponent)).
Proof.
  intros HR i f args rets Hn Hr.
  pose proof (deps_ok_sound _ _ (reachable_deps_ok _ _ HR) _ _ _ _ Hn Hr) as Hc.
  simpl in Hc. unfold call_ok in Hc.
  apply andb_true_iff in Hc. destruct Hc as [Ha Hd].
  rewrite forallb_forall in Ha, Hd. split.
  - intros k Hk. specialize (Hd k Hk). unfold dep_ok in Hd.
    apply existsb_exists in Hd. destruct Hd as [a [Hin Hh]].
    destruct (handle_of a) as [[k' n]|] eqn:E; [|discriminate].
    apply andb_true_iff in Hh. destruct Hh as [Hk' Hm]. simpl in Hk'.
    apply kind_eqb_eq in Hk'. subst k'.
    exists a, n. repeat split; try assumption.
    apply produced_constructed, mem_handle_in. assumption.
  - intros a Hin. specialize (Ha a Hin). unfold arg_ok in Ha.
    destruct (handle_of a) as [h|] eqn:E.
    + left. exists h. split; [reflexivity|].
      apply produced_constructed, mem_handle_in. assumption.
    + right. apply andb_true_iff in Ha. destruct Ha as [Hnil Hf].
      destruct a; try discriminate. apply fn_eqb_eq in Hf.
      split; [reflexivity|assumption].
Qed.

Lemma run_reachable w sched : forall p p',
  reachable w p -> run w sched p = Some p' -> reachable w p'.
Proof.
  induction sched as [|a sched IH]; intros p p' HR Hrun; simpl in Hrun.
  - injection Hrun as <-. assumption.
  - destruct (exec w a p) as [q|] eqn:E; [|discriminate].
    eapply IH; [|eassumption]. eapply reach_step; eassumption.
Qed.

Lemma after_reachable w sched : reachable w (after w sched).
Proof.
  unfold after. destruct (run w sched init_proc) as [p|] eqn:E.
  - eapply run_reachable; [apply reach_init|eassumption].
  - apply reach_init.
Qed.

Lemma build_order_witness :
  exists a n,
    In a [VHandle KBase 1; VHandle KAccountDB 2; VHandle KDeviceDB 3;
          VHandle KFederation 5; VHandle KAlias 7; VHandle KQuery 9;
          VHandle KTxnCache 12] /\
    handle_of a = Some (KTxnCache, n) /\
    constructed_before (trace (gs (after w_default [AMain]))) 12
                       (KTxnCache, n).
Proof.
  destruct (build_order_respects_dependencies
              w_default (after w_default [AMain])
              (after_reachable w_default [AMain])
              12 SetupAppServiceAPIComponent
              [VHandle KBase 1; VHandle KAccountDB 2; VHandle KDeviceDB 3;
               VHandle KFederation 5; VHandle KAlias 7; VHandle KQuery 9;
               VHandle KTxnCache 12]
              [VHandle KASQuery 13] eq_refl eq_refl) as [HA _].
  apply (HA KTxnCache). simpl. auto 10.
Defined.

(** ** C2: the router is assembled before a listener is launched *)

Lemma forallb_nth_error (f : event -> bool) t i e :
  forallb f t = true -> nth_error t i = Some e -> f e = true.
Proof.
  intros H Hn. rewrite forallb_forall in H.
  apply H. eapply nth_error_In. eassumption.
Qed.

(** An event of the first part sits in the first part, an event of the
    second part in the second, when the two parts share no event. *)
Lemma split_index (f : event -> bool) (t0 tl : list event) i e :
  forallb f t0 = true ->
  forallb (fun x => negb (f x)) tl = true ->
  nth_error (t0 ++ tl) i = Some e ->
  if f e then i < List.length t0 /\ nth_error t0 i = Some e
  else List.length t0 <= i.
Proof.
  intros H0 Hl Hn.
  destruct (Nat.lt_ge_cases i (List.length t0)) as [Hlt|Hge].
  - rewrite nth_error_app1 in Hn by assumption.
    rewrite (forallb_nth_error _ _ _ _ H0 Hn). auto.
  - rewrite nth_error_app2 in Hn by assumption.
    pose proof (forallb_nth_error _ _ _ _ Hl Hn) as Hf. simpl in Hf.
    destruct (f e); [discriminate|assumption].
Qed.

(** Replace the trace of a completed setup by its value. *)
Ltac use_assembled b :=
  let t := eval vm_compute in (trace (assembled b)) in
  let E := fresh "E" in
  assert (E : trace (assembled b) = t) by (vm_compute; reflexivity);
  rewrite !E; clear E.

Ltac find_nth i fuel :=
  lazymatch fuel with
  | O => fail "no such event"
  | S ?n => first [ exists i; do 2 eexists; reflexivity
                  | find_nth (S i) n ]
  end.

Lemma assembled_trace_complete me :
  (forall f, In f registrars ->
     exists i args rets,
       nth_error (trace (assembled me)) i = Some (ECall f args rets)) /\
  (exists i i' mux,
     i < i' /\
     nth_error (trace (assembled me)) i
       = Some (ECall WrapHandlerInCORS [mux] [VWrapCORS mux]) /\
     nth_error (trace (assembled me)) i'
       = Some (EHandle "/" (VWrapCORS mux))) /\
  (me = true ->
     exists i h,
       nth_error (trace (assembled me)) i = Some (EHandle "/metrics" h)).
Proof.
  destruct me.
  - use_assembled true. split; [|split].
    + intros f Hf. simpl in Hf.
      repeat (destruct Hf as [<-|Hf]; [find_nth 0 30|]); destruct Hf.
    + exists 22, 26. eexists. split; [lia|]. split; reflexivity.
    + intros _. exists 25. eexists. reflexivity.
  - use_assembled false. split; [|split].
    + intros f Hf. simpl in Hf.
      repeat (destruct Hf as [<-|Hf]; [find_nth 0 30|]); destruct Hf.
    + exists 22, 23. eexists. split; [lia|]. split; reflexivity.
    + discriminate.
Qed.

(** C2.  Wherever a [go] statement sits in the trace of a reachable
    state: every event that builds the router (registrar calls, the
    handler wrappers, registrations on the default mux) sits strictly
    before it; all nine registrars have returned before it; the merged
    mux has been wrapped for cross-origin access and installed at "/"
    before it; and with metrics enabled "/metrics" has been installed
    before it. *)
Theorem router_assembled_before_listeners w p :
  reachable w p ->
  forall j g,
    nth_error (trace (gs p)) j = Some (EGo g) ->
    (forall i e, nth_error (trace (gs p)) i = Some e ->
                 ev_assembly e = true -> i < j) /\
    (forall f, In f registrars ->
       exists i args rets,
         i < j /\ nth_error (trace (gs p)) i = Some (ECall f args rets)) /\
    (exists i i' mux,
       i < i' /\ i' < j /\
       nth_error (trace (gs p)) i
         = Some (ECall WrapHandlerInCORS [mux] [VWrapCORS mux]) /\
       nth_error (trace (gs p)) i' = Some (EHandle "/" (VWrapCORS mux))) /\
    (metrics_enabled w = true ->
       exists i h,
         i < j /\ nth_error (trace (gs p)) i = Some (EHandle "/metrics" h)).
Proof.
  intros HR j g Hj.
  destruct (reachable_inv _ _ HR) as [-> | s Hs -> | s0 tl Hs Hgs HL].
  - destruct j; discriminate.
  - exfalso. simpl in Hj.
    assert (Hall : forallb (fun e => negb (ev_go g e))
                     (trace s ++ map (fun d => ERunDeferred (fst d) (snd d))
                                     (defers s) ++ [EExit 2]) = true).
    { rewrite !forallb_app. simpl.
      pose proof (setup_trace_events w) as H0. rewrite Hs in H0. cbn [snd] in H0.
      rewrite !andb_true_iff. repeat split.
      - rewrite forallb_forall in *. intros e He. specialize (H0 e He).
        destruct e; try reflexivity; discriminate.
      - rewrite forallb_forall. intros e He.
        apply in_map_iff in He. destruct He as [d [<- _]]. reflexivity. }
    rewrite <- app_assoc in Hj.
    pose proof (forallb_nth_error _ _ _ _ Hall Hj) as Hg.
    simpl in Hg. destruct g; discriminate.
  - destruct (setup_ok_canon _ _ Hs) as [Hpe ->].
    rewrite Hgs in Hj |- *. unfold extend in Hj |- *.
    cbn [trace] in Hj |- *.
    destruct HL as [_ Hev _ _ _ _].
    pose proof (setup_trace_events w) as H0. rewrite Hs in H0. cbn [snd] in H0.
    assert (Hl : forallb (fun x => negb (setup_event x)) tl = true).
    { rewrite forallb_forall in *. intros e He. specialize (Hev e He).
      destruct e as [| | | | |[]| | | | | |]; try discriminate; reflexivity. }
    pose proof (split_index _ _ _ _ _ H0 Hl Hj) as Hjge.
    cbn [setup_event] in Hjge.
    assert (Hin : forall i e,
               nth_error (trace (assembled (metrics_enabled w))) i = Some e ->
               i < j /\
               nth_error (trace (assembled (metrics_enabled w)) ++ tl) i
                 = Some e).
    { intros i e Hi.
      assert (i < List.length (trace (assembled (metrics_enabled w)))) as Hlt
          by (apply nth_error_Some; rewrite Hi; discriminate).
      split; [eapply Nat.lt_le_trans; eassumption|].
      rewrite nth_error_app1; assumption. }
    destruct (assembled_trace_complete (metrics_enabled w))
      as (Hregs & (i & i' & mux & Hii & Hc & Hh) & Hm).
    repeat split.
    + intros i0 e Hi Ha.
      pose proof (split_index _ _ _ _ _ H0 Hl Hi) as Hs0.
      assert (setup_event e = true) as He
          by (clear - Ha; destruct e; try discriminate Ha; reflexivity).
      rewrite He in Hs0. destruct Hs0 as [Hlt _].
      eapply Nat.lt_le_trans; eassumption.
    + intros f Hf. destruct (Hregs f Hf) as (i0 & args & rets & Hi).
      exists i0, args, rets. apply Hin. assumption.
    + exists i, i', mux.
      destruct (Hin _ _ Hc) as [_ Hc']. destruct (Hin _ _ Hh) as [Hlt Hh'].
      auto.
    + intros Hme. destruct (Hm Hme) as (i0 & h & Hi).
      exists i0, h. apply Hin. assumption.
Qed.

Lemma router_assembled_witness :
  exists i args rets,
    i < 27 /\
    nth_error (trace (gs (after w_tls [AMain; AMain]))) i
      = Some (ECall SetupSyncAPIComponent args rets).
Proof.
  destruct (router_assembled_before_listeners
              w_tls (after w_tls [AMain; AMain])
              (after_reachable w_tls [AMain; AMain])
              27 Plain eq_refl) as (_ & Hregs & _).
  apply Hregs. simpl. auto 10.
Defined.

(** ** C3: the TLS listener *)

Lemma tls_configured_iff w :
  tls_configured w = true <-> certFile w <> "" /\ keyFile w <> "".
Proof.
  unfold tls_configured. rewrite andb_true_iff, !negb_true_iff.
  rewrite !String.eqb_neq. reflexivity.
Qed.

Lemma setup_count_zero w (f : event -> bool) :
  (forall e, setup_event e = true -> f e = false) ->
  count f (trace (snd (main_setup w init_state))) = 0.
Proof.
  intros H. eapply forallb_count_zero; [apply setup_trace_events|exact H].
Qed.

Lemma launch_count_zero (f : event -> bool) tl :
  forallb launch_event tl = true ->
  (forall e, launch_event e = true -> f e = false) ->
  count f tl = 0.
Proof. apply forallb_count_zero. Qed.

Lemma assembled_no_panic me : count ev_panic (trace (assembled me)) = 0.
Proof. destruct me; vm_compute; reflexivity. Qed.

Lemma in_app_count (f : event -> bool) t0 tl e :
  count f t0 = 0 -> In e (t0 ++ tl) -> f e = true -> In e tl.
Proof.
  intros H0 Hin Hf. apply in_app_or in Hin. destruct Hin as [Hin|Hin].
  - rewrite count_zero_forall in H0. rewrite (H0 e Hin) in Hf. discriminate.
  - assumption.
Qed.

(** What is known about the TLS goroutine in a running state. *)
Lemma tls_absent w c tl :
  g_inv w TLS c None tl ->
  forall e, In e tl -> about_tls e = false.
Proof.
  intros [_ Ht Hq _] e He. unfold tally in Ht. simpl in Ht.
  injection Ht as Hgo Hli Hre.
  specialize (Hq (or_introl eq_refl)).
  rewrite count_zero_forall in Hgo, Hli, Hre, Hq.
  unfold about_tls. rewrite (Hgo e He), (Hli e He), (Hq e He), (Hre e He).
  reflexivity.
Qed.

(** C3.  In every reachable state the TLS goroutine exists exactly when
    [main] has passed line 102 with both the certificate path and the
    key path non-empty, and a [go] for it is in the trace exactly then.
    With one of the two empty there never is a TLS goroutine nor any
    TLS event; once [main] blocks in [select] the plaintext goroutine
    has been launched, nothing has panicked, and the only way the
    process can have ended is the plaintext listener's own failure. *)
Theorem tls_listener_iff_cert_and_key w p :
  reachable w p ->
  (tls_g p <> None <->
     pc p = AtSelect /\ certFile w <> "" /\ keyFile w <> "") /\
  (In (EGo TLS) (trace (gs p)) <->
     pc p = AtSelect /\ certFile w <> "" /\ keyFile w <> "") /\
  (certFile w = "" \/ keyFile w = "" ->
     tls_g p = None /\
     (forall e, In e (trace (gs p)) -> about_tls e = false) /\
     (pc p = AtSelect ->
        plain_g p <> None /\
        count ev_panic (trace (gs p)) = 0 /\
        forall c, exited p = Some c ->
                  c = 1 /\ exists srv err,
                             plain_g p = Some (GReturned srv err))).
Proof.
  intros HR.
  destruct (reachable_inv _ _ HR) as [-> | s Hs -> | s0 tl Hs Hgs HL].
  - simpl. repeat split; try easy; try (intros [? _]; discriminate).
  - assert (Hno : forall e,
               In e (trace (gs (mkProc (crash s) AtSetup None None (Some 2)))) ->
               about_tls e = false).
    { simpl. intros e He. rewrite <- app_assoc in He.
      apply in_app_or in He. destruct He as [He|He].
      - pose proof (setup_trace_events w) as H0.
        rewrite Hs in H0. cbn [snd] in H0.
        rewrite forallb_forall in H0. specialize (H0 e He).
        destruct e; try discriminate H0; reflexivity.
      - apply in_app_or in He. destruct He as [He|[<-|[]]]; [|reflexivity].
        apply in_map_iff in He. destruct He as [d [<- _]]. reflexivity. }
    split; [|split].
    + simpl. split; [easy|]. intros [? _]. discriminate.
    + split.
      * intros Hin. apply Hno in Hin. discriminate.
      * simpl. intros [? _]. discriminate.
    + intros _. split; [reflexivity|]. split; [exact Hno|].
      simpl. discriminate.
  - destruct p as [g0 c pg tg ex]. simpl in Hgs. subst g0.
    destruct HL as [Hpc Hev Hsv Hp Ht Hx]. cbn [pc plain_g tls_g exited gs] in *.
    unfold extend. cbn [trace].
    assert (H0 : forall f, (forall e, setup_event e = true -> f e = false) ->
                           count f (trace s0) = 0).
    { intros f Hf. pose proof (setup_count_zero w f Hf) as H.
      rewrite Hs in H. exact H. }
    pose proof (gi_launched _ _ _ _ _ Ht) as Hl.
    assert (Hiff : tg <> None <->
                   c = AtSelect /\ certFile w <> "" /\ keyFile w <> "").
    { rewrite <- tls_configured_iff.
      destruct tg as [st|]; destruct c; simpl in Hl; try discriminate Hl.
      - split; [intros _; split; [reflexivity|symmetry; exact Hl]
               |intros _; discriminate].
      - split; [intros H; exfalso; apply H; reflexivity
               |intros [Hc _]; discriminate Hc].
      - split; [intros H; exfalso; apply H; reflexivity
               |intros [Hc _]; discriminate Hc].
      - split; [intros H; exfalso; apply H; reflexivity
               |intros [Hc _]; discriminate Hc].
      - split; [intros H; exfalso; apply H; reflexivity
               |intros [_ H]; rewrite H in Hl; discriminate Hl]. }
    assert (Hgo : In (EGo TLS) (trace s0 ++ tl) <-> tg <> None).
    { pose proof (gi_tally _ _ _ _ _ Ht) as Hta. unfold tally in Hta.
      split.
      - intros Hin.
        apply (in_app_count (ev_go TLS)) in Hin; [|apply H0|reflexivity].
        + intros ->. simpl in Hta. injection Hta as Hz _ _.
          rewrite count_zero_forall in Hz. specialize (Hz _ Hin).
          discriminate Hz.
        + intros e He. destruct e; try discriminate He; reflexivity.
      - intros Hne.
        assert (0 < count (ev_go TLS) tl) as Hpos.
        { destruct tg as [[| |]|]; try congruence;
            simpl in Hta; injection Hta as -> _ _; apply Nat.lt_0_1. }
        apply count_pos_in in Hpos. destruct Hpos as [e [He Hf]].
        apply in_or_app. right.
        destruct e as [| | | | | | |[]| | | |]; try discriminate Hf.
        exact He. }
    split; [exact Hiff|]. split; [rewrite Hgo; exact Hiff|].
    intros Hempty.
    assert (tg = None) as ->.
    { destruct tg; [|reflexivity]. exfalso.
      assert (Some g <> None) as Hne by discriminate.
      apply Hiff in Hne. destruct Hne as (_ & Hc & Hk).
      destruct Hempty; contradiction. }
    split; [reflexivity|]. split.
    + intros e He. apply in_app_or in He. destruct He as [He|He].
      * pose proof (setup_trace_events w) as Hse.
        rewrite Hs in Hse. cbn [snd] in Hse.
        rewrite forallb_forall in Hse. specialize (Hse e He).
        destruct e; try discriminate Hse; reflexivity.
      * eapply tls_absent; eassumption.
    + intros ->.
      pose proof (gi_launched _ _ _ _ _ Hp) as Hlp. simpl in Hlp.
      split; [destruct pg; [discriminate|discriminate Hlp]|].
      split.
      * rewrite count_app.
        destruct (setup_ok_canon _ _ Hs) as [_ ->].
        rewrite assembled_no_panic.
        apply (launch_count_zero _ _ Hev).
        intros e He. destruct e; try discriminate He; reflexivity.
      * intros code ->. unfold exit_inv in Hx. simpl in Hx.
        destruct Hx as [-> (g & srv & err & tl' & Hg & _)].
        split; [reflexivity|].
        destruct g; simpl in Hg; [|discriminate Hg].
        exists srv, err. exact Hg.
Qed.

Lemma tls_listener_witness :
  tls_g (after w_cert_only [AMain; AMain; AMain]) = None /\
  plain_g (after w_cert_only [AMain; AMain; AMain]) <> None.
Proof.
  destruct (tls_listener_iff_cert_and_key
              w_cert_only (after w_cert_only [AMain; AMain; AMain])
              (after_reachable w_cert_only [AMain; AMain; AMain]))
    as (_ & _ & H).
  destruct H as (H1 & _ & H3); [right; reflexivity|].
  split; [exact H1|]. apply H3. vm_compute. reflexivity.
Defined.

(** ** C4: the public rooms store cannot be reached *)

Lemma first_panic_from_quiet pn n : forall start,
  (forall k, pn k = false) -> first_panic_from pn start n = None.
Proof.
  induction n as [|n IH]; intros start H; simpl; [reflexivity|].
  rewrite H. apply IH. assumption.
Qed.

Lemma main_setup_quiet w :
  (forall n, panics w n = false) ->
  main_setup w init_state
  = setup_at (metrics_enabled w) (publicrooms_err w) None.
Proof.
  intros H. rewrite main_setup_canon. unfold first_panic.
  rewrite first_panic_from_quiet by assumption. reflexivity.
Qed.

Lemma store_failure_panics w msg :
  publicrooms_err w = Some msg ->
  fst (main_setup w init_state) = Panicking /\
  count after_store (trace (snd (main_setup w init_state))) = 0.
Proof.
  revert msg.
  apply (main_setup_cases
           (fun _ pe rs => forall msg, pe = Some msg ->
              fst rs = Panicking /\ count after_store (trace (snd rs)) = 0)).
  enum_setup ltac:(intros m E; first [discriminate E
                                     | vm_compute; split; reflexivity]).
Qed.

Lemma store_failure_trace me msg :
  trace (crash (snd (setup_at me (Some msg) None)))
  = firstn 20 (trace (snd (setup_at me (Some msg) None)))
    ++ store_failure_tail msg.
Proof. destruct me; vm_compute; reflexivity. Qed.

(** C4.  When the public rooms store reports a connection error, the
    first step of the process ends it with the status of a panic, and
    every reachable state other than the initial one is that dead
    state: no goroutine was launched, nothing can move, and the trace
    holds no call of the public rooms registrar, of the sync registrar
    or of the cross-origin wrapper, no registration on the default mux
    and no listener event.  If no call panics on its own before, the
    trace ends with the logged cause, the panic, the deferred Close and
    the exit. *)
Theorem publicrooms_failure_is_fatal w msg :
  publicrooms_err w = Some msg ->
  (exists p, exec w AMain init_proc = Some p /\ exited p = Some 2) /\
  (forall p, reachable w p ->
     p = init_proc \/
     (exited p = Some 2 /\ plain_g p = None /\ tls_g p = None /\
      (forall a, exec w a p = None) /\
      count after_store (trace (gs p)) = 0 /\
      ((forall n, panics w n = false) ->
       exists pre, trace (gs p) = pre ++ store_failure_tail msg))).
Proof.
  intros Hpe. destruct (store_failure_panics _ _ Hpe) as [Hfst Hcnt].
  destruct (main_setup w init_state) as [r s] eqn:Hs.
  cbn [fst snd] in Hfst, Hcnt. subst r.
  split.
  - eexists. unfold exec, main_step. cbn [exited init_proc pc gs].
    rewrite Hs. split; reflexivity.
  - intros p HR.
    destruct (reachable_inv _ _ HR) as [-> | s' Hs' -> | s0 tl Hs' Hgs HL].
    + left. reflexivity.
    + right. rewrite Hs in Hs'. injection Hs' as <-.
      cbn [exited plain_g tls_g gs].
      repeat split.
      * unfold crash, run_deferred, emit_state. cbn [trace defers].
        rewrite !count_app, Hcnt. cbn [count after_store].
        rewrite Nat.add_0_r. cbn [Nat.add].
        apply count_zero_forall. intros e He.
        apply in_map_iff in He. destruct He as [d [<- _]]. reflexivity.
      * intros Hq. exists (firstn 20 (trace s)).
        rewrite (main_setup_quiet _ Hq), Hpe in Hs.
        replace s with (snd (setup_at (metrics_enabled w) (Some msg) None))
          by (rewrite Hs; reflexivity).
        apply store_failure_trace.
    + rewrite Hs in Hs'. discriminate Hs'.
Qed.

Lemma publicrooms_failure_witness :
  exists p, exec w_dbfail AMain init_proc = Some p /\ exited p = Some 2.
Proof.
  exact (proj1 (publicrooms_failure_is_fatal
                  w_dbfail "connection refused" eq_refl)).
Defined.

(** ** C5: a listener that fails *)

Lemma dead_is_stuck w p a : exited p <> None -> exec w a p = None.
Proof.
  unfold exec. destruct (exited p); [reflexivity|]. intros H. congruence.
Qed.

(** What the trace says about a listener, from the invariant. *)
Lemma running_tally w s0 tl c st g :
  main_setup w init_state = (Ok tt, s0) ->
  g_inv w g c st tl ->
  tally g (trace s0 ++ tl) = expected st.
Proof.
  intros Hs [_ Ht _ _]. unfold tally in *. rewrite !count_app.
  pose proof (setup_count_zero w) as H0. rewrite Hs in H0. cbn [snd] in H0.
  rewrite !H0; [exact Ht|..];
    intros e He; destruct e; try discriminate He; reflexivity.
Qed.

(** C5.  Take a reachable, live state in which ListenAndServe or
    ListenAndServeTLS of listener [g] has returned [err].  The next
    step of that goroutine is [logrus.Fatal]: it logs [err], ends the
    process with status 1, and after it nothing moves, the other
    listener included.  Whatever else moves first, the failed listener
    stays failed: it is never restarted, and the trace shows that it
    was launched once and entered its serve call once. *)
Theorem listener_failure_is_fatal w p g srv err :
  reachable w p ->
  exited p = None ->
  goroutine p g = Some (GReturned srv err) ->
  (exists p',
     exec w (AFatal g) p = Some p' /\
     exited p' = Some 1 /\
     trace (gs p') = trace (gs p)
                     ++ [ELog FatalLevel "" (VErr err); EExit 1] /\
     forall a, exec w a p' = None) /\
  (forall a p', exec w a p = Some p' ->
                goroutine p' g = Some (GReturned srv err)) /\
  tally g (trace (gs p)) = (1, 1, 1).
Proof.
  intros HR Hex Hg.
  destruct (reachable_inv _ _ HR) as [-> | s Hs -> | s0 tl Hs Hgs HL].
  - destruct g; discriminate Hg.
  - discriminate Hex.
  - destruct p as [g0 c pg tg ex]. cbn [gs exited] in Hgs, Hex. subst g0 ex.
    destruct HL as [Hpc Hev Hsv Hp Ht Hx].
    cbn [pc plain_g tls_g exited gs] in *.
    split; [|split].
    + unfold exec. cbn [exited]. unfold goroutine_step. rewrite Hg.
      eexists. split; [reflexivity|]. cbn [exited gs].
      split; [reflexivity|]. split.
      * unfold logrus_Fatal, emit_state. cbn [trace].
        rewrite <- app_assoc. reflexivity.
      * intros a. first [reflexivity|apply dead_is_stuck; discriminate].
    + intros a p' Hstep. unfold exec in Hstep. cbn [exited] in Hstep.
      destruct g; cbn [goroutine plain_g tls_g] in Hg; subst.
      * pose proof (gi_launched _ _ _ _ _ Hp) as Hl.
        destruct a as [|[]|[] ?|[] ?|[]];
          cbn [goroutine_step main_step goroutine plain_g tls_g pc] in Hstep.
        -- unfold main_step in Hstep. cbn [pc] in Hstep.
           destruct c; try discriminate Hl; try discriminate Hstep.
           destruct (tls_configured w); injection Hstep as <-; reflexivity.
        -- discriminate Hstep.
        -- destruct tg as [[| |]|]; try discriminate Hstep.
           injection Hstep as <-. reflexivity.
        -- discriminate Hstep.
        -- destruct tg as [[| |]|]; try discriminate Hstep.
           injection Hstep as <-. reflexivity.
        -- discriminate Hstep.
        -- destruct tg as [[| |]|]; try discriminate Hstep.
           injection Hstep as <-. reflexivity.
        -- injection Hstep as <-. reflexivity.
        -- destruct tg as [[| |]|]; try discriminate Hstep.
           injection Hstep as <-. reflexivity.
      * pose proof (gi_launched _ _ _ _ _ Ht) as Hl.
        destruct a as [|[]|[] ?|[] ?|[]];
          cbn [goroutine_step main_step goroutine plain_g tls_g pc] in Hstep.
        -- unfold main_step in Hstep. cbn [pc] in Hstep.
           destruct c; try discriminate Hl; try discriminate Hstep.
        -- destruct pg as [[| |]|]; try discriminate Hstep.
           injection Hstep as <-. reflexivity.
        -- discriminate Hstep.
        -- destruct pg as [[| |]|]; try discriminate Hstep.
           injection Hstep as <-. reflexivity.
        -- discriminate Hstep.
        -- destruct pg as [[| |]|]; try discriminate Hstep.
           injection Hstep as <-. reflexivity.
        -- discriminate Hstep.
        -- destruct pg as [[| |]|]; try discriminate Hstep.
           injection Hstep as <-. reflexivity.
        -- injection Hstep as <-. reflexivity.
    + unfold extend. cbn [trace].
      destruct g; cbn [goroutine plain_g tls_g] in Hg; subst.
      * apply (running_tally _ _ _ _ _ _ Hs Hp).
      * apply (running_tally _ _ _ _ _ _ Hs Ht).
Qed.

Lemma listener_failure_witness :
  exists p',
    exec w_tls (AFatal Plain)
         (after w_tls [AMain; AMain; AMain; AStart Plain; AStart TLS;
                       AFail Plain "address already in use"]) = Some p' /\
    exited p' = Some 1.
Proof.
  destruct (listener_failure_is_fatal
              w_tls
              (after w_tls [AMain; AMain; AMain; AStart Plain; AStart TLS;
                            AFail Plain "address already in use"])
              Plain (new_server w_tls Plain) "address already in use"
              (after_reachable _ _) eq_refl eq_refl)
    as [[p' (H1 & H2 & _)] _].
  exists p'. split; assumption.
Defined.

(** ** C6: the metrics route *)


(** The shape shared by all states in which [main_setup] has
    returned. *)
Lemma past_setup w p :
  reachable w p -> pc p <> AtSetup ->
  exists tl, gs p = extend (assembled (metrics_enabled w)) tl /\
             launch_inv w (DefaultServeMux (assembled (metrics_enabled w)))
                        p tl /\
             main_setup w init_state
             = (Ok tt, assembled (metrics_enabled w)).
Proof.
  intros HR Hpc.
  destruct (reachable_inv _ _ HR) as [-> | s Hs -> | s0 tl Hs Hgs HL].
  - exfalso. apply Hpc. reflexivity.
  - exfalso. apply Hpc. reflexivity.
  - destruct (setup_ok_canon _ _ Hs) as [_ ->].
    exists tl. auto.
Qed.

Lemma extend_fields s tl :
  DefaultServeMux (extend s tl) = DefaultServeMux s /\
  apimux (extend s tl) = apimux s /\
  defers (extend s tl) = defers s /\
  trace (extend s tl) = trace s ++ tl.
Proof. repeat split. Qed.






(** ** C7: the transaction caches *)

Lemma cache_args_app f t t' :
  cache_args f (t ++ t') = cache_args f t ++ cache_args f t'.
Proof.
  induction t as [|e t IH]; [reflexivity|].
  destruct e; cbn [cache_args app]; try exact IH.
  rewrite IH. apply app_assoc.
Qed.

Lemma caches_built_app t t' :
  caches_built (t ++ t') = caches_built t ++ caches_built t'.
Proof.
  induction t as [|e t IH]; [reflexivity|].
  destruct e as [f args rets| | | | | | | | | | |];
    cbn [caches_built app]; try exact IH.
  destruct f; try exact IH. rewrite IH. apply app_assoc.
Qed.

Lemma no_call_no_cache f t :
  forallb (fun e => negb (ev_anycall e)) t = true ->
  cache_args f t = [] /\ caches_built t = [].
Proof.
  induction t as [|e t IH]; [split; reflexivity|].
  cbn [forallb]. intros H. apply andb_true_iff in H. destruct H as [He Ht].
  destruct e; try discriminate He; exact (IH Ht).
Qed.

Lemma late_events_no_call tl :
  forallb (fun e => negb (setup_event e)) tl = true ->
  forallb (fun e => negb (ev_anycall e)) tl = true.
Proof.
  intros H. rewrite forallb_forall in *. intros e He. specialize (H e He).
  destruct e; try reflexivity. discriminate H.
Qed.

Lemma in_cache_args_txn f t c : In c (cache_args f t) -> is_txn_cache c = true.
Proof.
  induction t as [|e t IH]; [intros []|].
  destruct e; cbn [cache_args]; try exact IH.
  intros H. apply in_app_or in H. destruct H as [H|H]; [|exact (IH H)].
  destruct (fn_eqb f f0); [|destruct H].
  apply filter_In in H. apply H.
Qed.

Lemma share_a_cache_complete t :
  receive_same_cache t -> share_a_cache t = true.
Proof.
  intros [c [Ha Hc]]. unfold share_a_cache.
  apply existsb_exists. exists c. split; [exact Ha|].
  apply existsb_exists. exists c. split; [exact Hc|].
  pose proof (in_cache_args_txn _ _ _ Ha) as Htxn.
  unfold is_txn_cache in Htxn. unfold same_instance.
  destruct (handle_of c) as [[k n]|]; [|discriminate Htxn].
  unfold handle_eqb. cbn [fst snd]. rewrite Nat.eqb_refl.
  destruct k; try discriminate Htxn. reflexivity.
Qed.

Lemma setup_shares_no_cache w :
  share_a_cache (trace (snd (main_setup w init_state))) = false.
Proof.
  apply (main_setup_cases
           (fun _ _ rs => share_a_cache (trace (snd rs)) = false)).
  enum_setup ltac:(vm_compute; reflexivity).
Qed.

Lemma assembled_caches me :
  caches_built (trace (assembled me))
  = [VHandle KTxnCache 12; VHandle KTxnCache 15] /\
  (forall f,
     cache_args f (trace (assembled me))
     = match f with
       | SetupAppServiceAPIComponent => [VHandle KTxnCache 12]
       | SetupClientAPIComponent => [VHandle KTxnCache 15]
       | _ => []
       end).
Proof.
  split; [destruct me; vm_compute; reflexivity|].
  intros f. destruct me, f; vm_compute; reflexivity.
Qed.

(** The claim as it is written fails: in the default world the trace
    of the completed setup shows no cache instance that both the
    application-service bridge and the client-facing API received. *)
Lemma same_cache_refuted :
  ~ receive_same_cache (trace (gs (after w_default [AMain]))).
Proof.
  intros H. apply share_a_cache_complete in H.
  vm_compute in H. discriminate H.
Qed.

(** C7, amended.  In no reachable state has one cache instance been
    handed to both the application-service bridge and the
    client-facing API.  Once [main_setup] has returned,
    [transactions.New] has been called twice and has returned two
    distinct caches; the first went to the application-service bridge
    and to nothing else, the second to the client-facing API and to
    nothing else. *)
Theorem each_subsystem_gets_its_own_cache w p :
  reachable w p ->
  ~ receive_same_cache (trace (gs p)) /\
  (pc p <> AtSetup ->
     exists c1 c2,
       c1 <> c2 /\
       caches_built (trace (gs p)) = [c1; c2] /\
       cache_args SetupAppServiceAPIComponent (trace (gs p)) = [c1] /\
       cache_args SetupClientAPIComponent (trace (gs p)) = [c2] /\
       forall f, f <> SetupAppServiceAPIComponent ->
                 f <> SetupClientAPIComponent ->
                 cache_args f (trace (gs p)) = []).
Proof.
  intros HR. split.
  - intros H. apply share_a_cache_complete in H.
    destruct (reachable_trace _ _ HR) as (t0 & tl & Ht & Ht0 & Htl).
    apply late_events_no_call in Htl.
    unfold share_a_cache in H. rewrite Ht, !cache_args_app in H.
    rewrite !(proj1 (no_call_no_cache _ _ Htl)), !app_nil_r in H.
    destruct Ht0 as [->| ->].
    + discriminate H.
    + pose proof (setup_shares_no_cache w) as Hno.
      unfold share_a_cache in Hno. rewrite Hno in H. discriminate H.
  - intros Hpc. destruct (past_setup _ _ HR Hpc) as (tl & Hgs & HL & _).
    rewrite Hgs.
    destruct (extend_fields (assembled (metrics_enabled w)) tl)
      as (_ & _ & _ & ->).
    assert (Hno : forallb (fun e => negb (ev_anycall e)) tl = true).
    { destruct HL as [_ Hev _ _ _ _]. clear - Hev.
      rewrite forallb_forall in *. intros e He. specialize (Hev e He).
      destruct e; try reflexivity. discriminate Hev. }
    destruct (assembled_caches (metrics_enabled w)) as [Hb Ha].
    exists (VHandle KTxnCache 12), (VHandle KTxnCache 15).
    split; [intros E; discriminate E|].
    rewrite caches_built_app, Hb, (proj2 (no_call_no_cache Close _ Hno)).
    split; [reflexivity|].
    repeat split.
    + rewrite cache_args_app, Ha, (proj1 (no_call_no_cache _ _ Hno)).
      reflexivity.
    + rewrite cache_args_app, Ha, (proj1 (no_call_no_cache _ _ Hno)).
      reflexivity.
    + intros f Hf1 Hf2.
      rewrite cache_args_app, Ha, (proj1 (no_call_no_cache _ _ Hno)).
      clear - Hf1 Hf2. destruct f; try reflexivity; contradiction.
Qed.

Lemma own_cache_witness :
  ~ receive_same_cache (trace (gs (after w_tls [AMain; AMain; AMain]))).
Proof.
  exact (proj1 (each_subsystem_gets_its_own_cache
                  w_tls (after w_tls [AMain; AMain; AMain])
                  (after_reachable _ _))).
Defined.

(** ** C8: both listeners serve the same routes *)

Lemma setup_no_serve w g path h :
  ~ In (EServe g path h) (trace (snd (main_setup w init_state))).
Proof.
  intros Hin. pose proof (setup_trace_events w) as H.
  rewrite forallb_forall in H. specialize (H _ Hin). discriminate H.
Qed.

(** C8.  In every reachable state in which both listeners are inside
    their serve call, neither server has a handler of its own, so both
    route through [http.DefaultServeMux] and every path gets the same
    handler from either.  And whatever requests the trace records:
    every one was routed by the default mux as assembled by [main], so
    a path served on the plaintext listener and the same path served on
    the TLS listener got the same handler. *)
Theorem listeners_serve_identical_routes w p :
  reachable w p ->
  (forall s1 s2,
     plain_g p = Some (GListening s1) ->
     tls_g p = Some (GListening s2) ->
     Handler s1 = None /\ Handler s2 = None /\
     forall path, route (gs p) s1 path = route (gs p) s2 path) /\
  (forall g path h,
     In (EServe g path h) (trace (gs p)) ->
     h = mux_match (DefaultServeMux (gs p)) path) /\
  (forall path h1 h2,
     In (EServe Plain path h1) (trace (gs p)) ->
     In (EServe TLS path h2) (trace (gs p)) ->
     h1 = h2).
Proof.
  intros HR.
  assert (Hserve : forall g path h,
             In (EServe g path h) (trace (gs p)) ->
             h = mux_match (DefaultServeMux (gs p)) path).
  { destruct (reachable_inv _ _ HR) as [-> | s Hs -> | s0 tl Hs Hgs HL].
    - intros g path h [].
    - intros g path h Hin. exfalso. cbn [gs crash run_deferred emit_state trace] in Hin.
      rewrite <- app_assoc in Hin.
      apply in_app_or in Hin. destruct Hin as [Hin|Hin].
      + apply (setup_no_serve w g path h). rewrite Hs. exact Hin.
      + apply in_app_or in Hin. destruct Hin as [Hin|[Hin|[]]].
        * apply in_map_iff in Hin. destruct Hin as [d [E _]]. discriminate E.
        * discriminate Hin.
    - intros g path h Hin. rewrite Hgs in Hin |- *.
      destruct (extend_fields s0 tl) as (Hmx & _ & _ & Htr).
      rewrite Hmx. rewrite Htr in Hin.
      apply in_app_or in Hin. destruct Hin as [Hin|Hin].
      + exfalso. apply (setup_no_serve w g path h). rewrite Hs. exact Hin.
      + exact (li_serve _ _ _ _ HL _ _ _ Hin). }
  split; [|split].
  - intros s1 s2 H1 H2.
    destruct (reachable_inv _ _ HR) as [-> | s Hs -> | s0 tl Hs Hgs HL].
    + discriminate H1.
    + discriminate H1.
    + pose proof (gi_server _ _ _ _ _ (li_plain _ _ _ _ HL)) as Hp.
      pose proof (gi_server _ _ _ _ _ (li_tls _ _ _ _ HL)) as Ht.
      rewrite H1 in Hp. rewrite H2 in Ht.
      rewrite (Hp s1 eq_refl), (Ht s2 eq_refl).
      repeat split.
  - exact Hserve.
  - intros path h1 h2 Hin1 Hin2.
    rewrite (Hserve _ _ _ Hin1), (Hserve _ _ _ Hin2). reflexivity.
Qed.

Lemma identical_routes_witness :
  route (gs (after w_tls [AMain; AMain; AMain; AStart Plain; AStart TLS]))
        (new_server w_tls Plain) "/_matrix/client/versions"
  = route (gs (after w_tls [AMain; AMain; AMain; AStart Plain; AStart TLS]))
          (new_server w_tls TLS) "/_matrix/client/versions".
Proof.
  destruct (listeners_serve_identical_routes
              w_tls
              (after w_tls [AMain; AMain; AMain; AStart Plain; AStart TLS])
              (after_reachable _ _)) as [H _].
  destruct (H (new_server w_tls Plain) (new_server w_tls TLS)
              eq_refl eq_refl) as (_ & _ & Hroute).
  apply Hroute.
Defined.

(** ** C9: the plaintext listener *)

Lemma setup_at_ok me : setup_at me None None = (Ok tt, assembled me).
Proof. destruct me; vm_compute; reflexivity. Qed.

Lemma valid_setup w :
  publicrooms_err w = None ->
  (forall n, panics w n = false) ->
  main_setup w init_state = (Ok tt, assembled (metrics_enabled w)).
Proof.
  intros Hpe Hq. rewrite (main_setup_quiet _ Hq), Hpe. apply setup_at_ok.
Qed.

Lemma only_main_moves w p a q :
  plain_g p = None -> tls_g p = None ->
  exec w a p = Some q -> a = AMain.
Proof.
  intros Hp Ht. unfold exec. destruct (exited p); [discriminate|].
  destruct a as [|[]|[] ?|[] ?|[]]; cbn [goroutine_step goroutine];
    rewrite ?Hp, ?Ht; intros H; try discriminate H; reflexivity.
Qed.

Lemma tally_bounds st :
  let '(a, b, c) := expected st in a <= 1 /\ b <= 1 /\ c <= 1.
Proof. destruct st as [[| |]|]; cbn; lia. Qed.

(** C9.  Take a world in which the setup succeeds: the store connects
    and no call panics; and let the write timeout constant be positive.
    Then every run begins with [main_setup] followed by the [go] of
    line 92, nothing else being able to move before; the launched
    goroutine can enter ListenAndServe on a server bound to the
    configured plaintext address with that timeout.  In every
    reachable state the plaintext goroutine has been launched at most
    once and has entered ListenAndServe at most once, exactly once as
    soon as [main] is past line 92, and a listening plaintext server has
    the configured address and a positive write timeout.  Without the
    flag the address is ":8008". *)
Theorem plaintext_listener_started_once w :
  publicrooms_err w = None ->
  (forall n, panics w n = false) ->
  (0 < HTTPServerTimeout w)%Z ->
  (exists p1 p2 p3,
     exec w AMain init_proc = Some p1 /\
     (forall a q, exec w a init_proc = Some q -> a = AMain) /\
     exec w AMain p1 = Some p2 /\
     (forall a q, exec w a p1 = Some q -> a = AMain) /\
     plain_g p2 = Some GStart /\
     count (ev_go Plain) (trace (gs p2)) = 1 /\
     exec w (AStart Plain) p2 = Some p3 /\
     plain_g p3 = Some (GListening (mkServer (httpBindAddr w)
                                             (HTTPServerTimeout w) None))) /\
  (forall p, reachable w p ->
     count (ev_go Plain) (trace (gs p)) <= 1 /\
     count (ev_listen Plain) (trace (gs p)) <= 1 /\
     (p = init_proc \/ pc p = AtGoPlain \/
      count (ev_go Plain) (trace (gs p)) = 1) /\
     forall srv, plain_g p = Some (GListening srv) ->
                 Addr srv = httpBindAddr w /\
                 WriteTimeout srv = HTTPServerTimeout w /\
                 (0 < WriteTimeout srv)%Z) /\
  (flag_http_bind_address w = None -> httpBindAddr w = ":8008").
Proof.
  intros Hpe Hq Htmo. pose proof (valid_setup _ Hpe Hq) as Hs.
  split; [|split].
  - exists (mkProc (assembled (metrics_enabled w)) AtGoPlain None None None).
    exists (mkProc (emit_state (EGo Plain) (assembled (metrics_enabled w)))
                   AtTLSCheck (Some GStart) None None).
    eexists.
    split; [|split; [|split; [|split; [|split; [|split; [|split]]]]]].
    + unfold exec, main_step. cbn [exited init_proc pc gs].
      rewrite Hs. reflexivity.
    + intros a q. apply only_main_moves; reflexivity.
    + reflexivity.
    + intros a q. apply only_main_moves; reflexivity.
    + reflexivity.
    + cbn [gs]. unfold emit_state. cbn [trace]. rewrite count_app.
      pose proof (setup_count_zero w (ev_go Plain)) as H0.
      rewrite Hs in H0. cbn [snd] in H0. rewrite H0; [reflexivity|].
      clear. intros e He. destruct e; try discriminate He; reflexivity.
    + reflexivity.
    + reflexivity.
  - intros p HR.
    destruct (reachable_inv _ _ HR) as [-> | s Hs' -> | s0 tl Hs' Hgs HL].
    + cbn [gs init_proc init_state trace count plain_g].
      split; [apply Nat.le_0_1|]. split; [apply Nat.le_0_1|].
      split; [left; reflexivity|]. intros srv H. discriminate H.
    + rewrite Hs in Hs'. discriminate Hs'.
    + rewrite Hgs. destruct (extend_fields s0 tl) as (_ & _ & _ & ->).
      pose proof (li_plain _ _ _ _ HL) as Hp.
      pose proof (running_tally _ _ _ _ _ _ Hs' Hp) as Hta.
      unfold tally in Hta.
      pose proof (tally_bounds (plain_g p)) as Hb.
      destruct (expected (plain_g p)) as [[a b] c] eqn:Ee.
      injection Hta as -> -> _. destruct Hb as (Ha & Hb & _).
      split; [exact Ha|]. split; [exact Hb|]. split.
      * pose proof (gi_launched _ _ _ _ _ Hp) as Hl.
        pose proof (li_pc _ _ _ _ HL) as Hpc.
        clear - Hl Hpc Ee.
        destruct (plain_g p) as [[| |]|]; cbn in Ee;
          injection Ee as <- _ _; try (right; right; reflexivity).
        right. left. destruct (pc p); try discriminate Hl;
          [contradiction|reflexivity].
      * intros srv Hsrv.
        pose proof (gi_server _ _ _ _ _ Hp srv) as Hnew.
        rewrite Hsrv in Hnew. rewrite (Hnew eq_refl).
        cbn [new_server Addr WriteTimeout]. auto.
  - intros Hflag. unfold httpBindAddr. rewrite Hflag. reflexivity.
Qed.

Lemma plaintext_listener_witness :
  exists p1 p2 p3,
    exec w_default AMain init_proc = Some p1 /\
    exec w_default AMain p1 = Some p2 /\
    exec w_default (AStart Plain) p2 = Some p3 /\
    plain_g p3 = Some (GListening (mkServer ":8008" five_minutes None)).
Proof.
  destruct (plaintext_listener_started_once
              w_default eq_refl (fun _ => eq_refl) eq_refl)
    as [(p1 & p2 & p3 & H1 & _ & H2 & _ & _ & _ & H3 & H4) _].
  exists p1, p2, p3. auto.
Defined.

(** ** C10: panic against [os.Exit] *)

Lemma store_failure_pre me msg :
  nth_error (firstn 20 (trace (snd (setup_at me (Some msg) None)))) 1
  = Some (ECall NewBaseDendrite [VHandle KCfg 0; VStr "Monolith"]
                [VHandle KBase 1]) /\
  nth_error (firstn 20 (trace (snd (setup_at me (Some msg) None)))) 2
  = Some (EDefer Close (VHandle KBase 1)) /\
  count ev_deferred (firstn 20 (trace (snd (setup_at me (Some msg) None))))
  = 0 /\
  count ev_exit (firstn 20 (trace (snd (setup_at me (Some msg) None)))) = 0.
Proof. destruct me; vm_compute; repeat split. Qed.

Lemma assembled_defers me :
  defers (assembled me) = [(Close, VHandle KBase 1)].
Proof. destruct me; vm_compute; reflexivity. Qed.

(** C10.  In a reachable state: if the public rooms store reported a
    connection error (and no call panicked on its own), any state but
    the initial one is dead with the status of a panic, and its trace
    ends with the logged cause, the panic, then the deferred
    [base.Close()] registered at line 52, then the exit; nothing was
    run deferred and nothing exited before.  If instead the process
    ended with status 1, that was [logrus.Fatal] after a listener
    returned an error: the trace ends with that log line and the exit,
    no deferred call ever ran, and [base.Close()] is still pending on
    the defer stack of [main]. *)
Theorem panic_runs_deferred_close_fatal_does_not w p :
  reachable w p ->
  (forall msg,
     publicrooms_err w = Some msg ->
     (forall n, panics w n = false) ->
     p <> init_proc ->
     exited p = Some 2 /\
     exists pre,
       trace (gs p) = pre ++ store_failure_tail msg /\
       In (ECall NewBaseDendrite [VHandle KCfg 0; VStr "Monolith"]
                 [VHandle KBase 1]) pre /\
       In (EDefer Close (VHandle KBase 1)) pre /\
       count ev_deferred pre = 0 /\ count ev_exit pre = 0) /\
  (exited p = Some 1 ->
     count ev_deferred (trace (gs p)) = 0 /\
     defers (gs p) = [(Close, VHandle KBase 1)] /\
     exists pre err,
       trace (gs p) = pre ++ [ELog FatalLevel "" (VErr err); EExit 1] /\
       exists g srv, goroutine p g = Some (GReturned srv err)).
Proof.
  intros HR.
  destruct (reachable_inv _ _ HR) as [-> | s Hs -> | s0 tl Hs Hgs HL].
  - split.
    + intros msg _ _ H. exfalso. apply H. reflexivity.
    + intros H. discriminate H.
  - split; [|intros H; discriminate H].
    intros msg Hpe Hq _. split; [reflexivity|].
    rewrite (main_setup_quiet _ Hq), Hpe in Hs.
    replace s with (snd (setup_at (metrics_enabled w) (Some msg) None))
      by (rewrite Hs; reflexivity).
    cbn [gs]. rewrite store_failure_trace.
    destruct (store_failure_pre (metrics_enabled w) msg)
      as (H1 & H2 & H3 & H4).
    eexists. split; [reflexivity|].
    split; [eapply nth_error_In; exact H1|].
    split; [eapply nth_error_In; exact H2|].
    split; assumption.
  - split.
    + intros msg Hpe _ _. exfalso.
      destruct (store_failure_panics _ _ Hpe) as [Hf _].
      rewrite Hs in Hf. discriminate Hf.
    + intros Hex.
      pose proof (li_exit _ _ _ _ HL) as Hx. unfold exit_inv in Hx.
      rewrite Hex in Hx.
      destruct Hx as (_ & g & srv & err & tl' & Hg & Htl & _).
      destruct (setup_ok_canon _ _ Hs) as [_ E]. 
      rewrite Hgs.
      destruct (extend_fields s0 tl) as (_ & _ & -> & ->).
      split; [|split].
      * rewrite count_app.
        pose proof (setup_count_zero w ev_deferred) as H0.
        rewrite Hs in H0. cbn [snd] in H0. rewrite H0.
        -- apply (launch_count_zero _ _ (li_events _ _ _ _ HL)).
           clear. intros e He. destruct e; try discriminate He; reflexivity.
        -- clear. intros e He. destruct e; try discriminate He; reflexivity.
      * rewrite E. apply assembled_defers.
      * exists (trace s0 ++ tl'), err. split.
        -- rewrite Htl. apply app_assoc.
        -- exists g, srv. exact Hg.
Qed.

Lemma panic_vs_fatal_witness :
  exited (after w_dbfail [AMain]) = Some 2 /\
  exists pre,
    trace (gs (after w_dbfail [AMain]))
    = pre ++ store_failure_tail "connection refused".
Proof.
  destruct (panic_runs_deferred_close_fatal_does_not
              w_dbfail (after w_dbfail [AMain]) (after_reachable _ _))
    as [H _].
  destruct (H "connection refused" eq_refl (fun _ => eq_refl))
    as (Hex & pre & Htr & _).
  - vm_compute. intros E. discriminate E.
  - split; [exact Hex|]. exists pre. exact Htr.
Defined.

(** * Further properties of [main] *)

(** ** The first step and what follows it *)

Lemma reachable_first w p :
  reachable w p ->
  p = init_proc \/
  exists tl,
    trace (gs p) = trace (first_state (main_setup w init_state)) ++ tl /\
    forallb launch_event tl = true.
Proof.
  intros HR.
  destruct (reachable_inv _ _ HR) as [-> | s Hs -> | s0 tl Hs Hgs HL].
  - left. reflexivity.
  - right. exists []. rewrite Hs. unfold first_state. cbn [fst snd gs].
    rewrite app_nil_r. split; reflexivity.
  - right. exists tl. rewrite Hs, Hgs. unfold first_state. cbn [fst snd].
    split; [reflexivity|]. exact (li_events _ _ _ _ HL).
Qed.

(** A property of the first state can be checked on the canonical
    worlds. *)
Lemma first_state_cases (chk : list event -> bool) :
  (forall me pe k, chk (trace (first_state (setup_at me pe k))) = true) ->
  forall w, chk (trace (first_state (main_setup w init_state))) = true.
Proof.
  intros H w.
  apply (main_setup_cases
           (fun _ _ rs => chk (trace (first_state rs)) = true)).
  exact H.
Qed.

(** ** Every handle is constructed before it is used *)






(** ** The registrars run once each, in source order *)

Lemma prefix_b_firstn l : forall r,
  prefix_b l r = true -> l = firstn (List.length l) r.
Proof.
  induction l as [|x l IH]; intros r H; [reflexivity|].
  destruct r as [|y r]; [discriminate H|].
  cbn [prefix_b] in H. apply andb_true_iff in H. destruct H as [Hx Hl].
  apply fn_eqb_eq in Hx. subst y. cbn [List.length firstn].
  f_equal. apply IH. exact Hl.
Qed.

Lemma registrar_calls_app t t' :
  registrar_calls (t ++ t') = registrar_calls t ++ registrar_calls t'.
Proof.
  induction t as [|e t IH]; [reflexivity|].
  destruct e; cbn [registrar_calls app]; try exact IH;
    destruct (is_registrar f); cbn [app]; rewrite IH; reflexivity.
Qed.

Lemma registrar_calls_launch tl :
  forallb launch_event tl = true -> registrar_calls tl = [].
Proof.
  induction tl as [|e tl IH]; [reflexivity|].
  cbn [forallb]. intros H. apply andb_true_iff in H. destruct H as [He Hl].
  destruct e; try discriminate He; exact (IH Hl).
Qed.

Lemma first_state_registrars w :
  prefix_b (registrar_calls
              (trace (first_state (main_setup w init_state))))
           registrars = true.
Proof.
  apply (first_state_cases
           (fun t => prefix_b (registrar_calls t) registrars)).
  enum_setup ltac:(vm_compute; reflexivity).
Qed.

Lemma assembled_registrars me :
  registrar_calls (trace (assembled me)) = registrars.
Proof. destruct me; vm_compute; reflexivity. Qed.

(** X2.  In every reachable state the registrars invoked so far,
    counting a call that panicked, are an initial segment of the nine
    registrars in the order of the source: room server, EDU server,
    application service, federation sender, client API, federation API,
    media API, public rooms API, sync API.  So no registrar is ever
    invoked twice or out of order, and once [main_setup] has returned
    all nine have been invoked, each exactly once. *)
Theorem registrars_run_once_in_order w p :
  reachable w p ->
  (exists n, registrar_calls (trace (gs p)) = firstn n registrars) /\
  NoDup (registrar_calls (trace (gs p))) /\
  (pc p <> AtSetup -> registrar_calls (trace (gs p)) = registrars).
Proof.
  intros HR.
  assert (Hpre : exists n,
             registrar_calls (trace (gs p)) = firstn n registrars).
  { destruct (reachable_first _ _ HR) as [-> | (tl & Ht & Hl)].
    - exists 0. reflexivity.
    - rewrite Ht, registrar_calls_app, (registrar_calls_launch _ Hl).
      rewrite app_nil_r. eexists.
      apply prefix_b_firstn, first_state_registrars. }
  split; [exact Hpre|]. split.
  - destruct Hpre as [n ->]. clear.
    assert (Hnd : NoDup registrars).
    { unfold registrars.
      repeat (apply NoDup_cons;
              [cbn [In]; intros H;
               repeat (destruct H as [H|H]; [discriminate H|]); exact H|]).
      apply NoDup_nil. }
    revert n. induction Hnd as [|x l Hx Hl IH]; intros n.
    + rewrite firstn_nil. apply NoDup_nil.
    + destruct n as [|n]; [apply NoDup_nil|].
      cbn [firstn]. apply NoDup_cons; [|apply IH].
      intros Hin. apply Hx. clear - Hin. revert n Hin.
      induction l as [|y l IHl]; intros n Hin.
      * rewrite firstn_nil in Hin. destruct Hin.
      * destruct n as [|n]; [destruct Hin|].
        cbn [firstn] in Hin. destruct Hin as [->|Hin].
        -- left. reflexivity.
        -- right. exact (IHl _ Hin).
  - intros Hpc. destruct (past_setup _ _ HR Hpc) as (tl & Hgs & HL & _).
    rewrite Hgs.
    destruct (extend_fields (assembled (metrics_enabled w)) tl)
      as (_ & _ & _ & ->).
    rewrite registrar_calls_app, assembled_registrars.
    rewrite (registrar_calls_launch _ (li_events _ _ _ _ HL)).
    apply app_nil_r.
Qed.

Lemma registrars_order_witness :
  registrar_calls (trace (gs (after w_tls [AMain; AMain]))) = registrars.
Proof.
  apply (registrars_run_once_in_order
           w_tls (after w_tls [AMain; AMain]) (after_reachable _ _)).
  vm_compute. intros E. discriminate E.
Defined.

(** ** One instance of everything but the transaction caches *)

Lemma used_handles_app t t' :
  used_handles (t ++ t') = used_handles t ++ used_handles t'.
Proof.
  induction t as [|e t IH]; [reflexivity|].
  cbn [used_handles app]. rewrite IH. apply app_assoc.
Qed.

Lemma used_handles_launch tl :
  forallb launch_event tl = true -> used_handles tl = [].
Proof.
  induction tl as [|e tl IH]; [reflexivity|].
  cbn [forallb]. intros H. apply andb_true_iff in H. destruct H as [He Hl].
  cbn [used_handles]. rewrite (IH Hl).
  destruct e; try discriminate He; reflexivity.
Qed.

Lemma in_handles_of vs a h :
  In a vs -> handle_of a = Some h -> In h (handles_of vs).
Proof.
  induction vs as [|v vs IH]; [intros []|].
  intros [->|Hin] Hh; cbn [handles_of].
  - rewrite Hh. left. reflexivity.
  - destruct (handle_of v); [right|]; exact (IH Hin Hh).
Qed.

Lemma in_used_handles t e a h :
  In e t -> In a (uses e) -> handle_of a = Some h -> In h (used_handles t).
Proof.
  induction t as [|x t IH]; [intros []|].
  intros [->|Hin] Ha Hh; cbn [used_handles]; apply in_or_app.
  - left. eapply in_handles_of; eassumption.
  - right. exact (IH Hin Ha Hh).
Qed.

Lemma first_state_one_per_kind w :
  one_per_kind (used_handles
                  (trace (first_state (main_setup w init_state)))) = true.
Proof.
  apply (first_state_cases (fun t => one_per_kind (used_handles t))).
  enum_setup ltac:(vm_compute; reflexivity).
Qed.

(** X3.  In every reachable state, two handles of the same kind that
    the trace hands to callees are the same instance, unless they are
    transaction caches: every registrar that takes the account store
    gets the one account store, and likewise for the device store, the
    federation client, the key ring (passed by address at lines 69 and
    73), the room server's alias, input and query APIs, the EDU input
    API, the application service query API and the federation sender
    API. *)
Theorem subsystems_share_single_instances w p :
  reachable w p ->
  forall e1 e2 a b k n1 n2,
    In e1 (trace (gs p)) -> In a (uses e1) ->
    In e2 (trace (gs p)) -> In b (uses e2) ->
    handle_of a = Some (k, n1) ->
    handle_of b = Some (k, n2) ->
    k <> KTxnCache ->
    n1 = n2.
Proof.
  intros HR e1 e2 a b k n1 n2 He1 Ha He2 Hb Hha Hhb Hk.
  destruct (reachable_first _ _ HR) as [-> | (tl & Ht & Hl)];
    [destruct He1|].
  pose proof (in_used_handles _ _ _ _ He1 Ha Hha) as H1.
  pose proof (in_used_handles _ _ _ _ He2 Hb Hhb) as H2.
  rewrite Ht, used_handles_app, (used_handles_launch _ Hl), app_nil_r
    in H1, H2.
  pose proof (first_state_one_per_kind w) as Hone.
  unfold one_per_kind in Hone. rewrite forallb_forall in Hone.
  specialize (Hone _ H1). rewrite forallb_forall in Hone.
  specialize (Hone _ H2). unfold same_if_same_kind in Hone.
  cbn [fst snd] in Hone. clear - Hone Hk.
  apply orb_true_iff in Hone. destruct Hone as [Hone|Hone].
  - apply orb_true_iff in Hone. destruct Hone as [Hone|Hone].
    + destruct k; discriminate Hone.
    + apply Nat.eqb_eq. exact Hone.
  - apply kind_eqb_eq in Hone. contradiction.
Qed.

Lemma single_instances_witness :
  In (ECall SetupMediaAPIComponent [VHandle KBase 1; VHandle KDeviceDB 3] [])
     (trace (gs (after w_default [AMain]))) /\
  6 = 6.
Proof.
  split; [eapply nth_error_In with (n := 18); reflexivity|].
  apply (subsystems_share_single_instances
           w_default (after w_default [AMain]) (after_reachable _ _)
           (ECall SetupClientAPIComponent
                  [VHandle KBase 1; VHandle KDeviceDB 3; VHandle KAccountDB 2;
                   VHandle KFederation 5; VAddrOf (VHandle KKeyRing 6);
                   VHandle KAlias 7; VHandle KInput 8; VHandle KQuery 9;
                   VHandle KEDUInput 11; VHandle KASQuery 13;
                   VHandle KTxnCache 15; VHandle KFedSender 14] [])
           (ECall SetupFederationAPIComponent
                  [VHandle KBase 1; VHandle KAccountDB 2; VHandle KDeviceDB 3;
                   VHandle KFederation 5; VAddrOf (VHandle KKeyRing 6);
                   VHandle KAlias 7; VHandle KInput 8; VHandle KQuery 9;
                   VHandle KASQuery 13; VHandle KFedSender 14;
                   VHandle KEDUProducer 16] [])
           (VAddrOf (VHandle KKeyRing 6)) (VAddrOf (VHandle KKeyRing 6))
           KKeyRing 6 6).
  - eapply nth_error_In with (n := 15). reflexivity.
  - cbn [uses In]. auto 10.
  - eapply nth_error_In with (n := 17). reflexivity.
  - cbn [uses In]. auto 10.
  - reflexivity.
  - reflexivity.
  - intros E. discriminate E.
Defined.

(** ** A panic during setup *)










(** ** When the setup succeeds *)





(** ** The process lives until a listener returns *)

(** X6.  Once [main_setup] has returned, the only way the process ends
    is [logrus.Fatal] in a listener goroutine: if it has exited, the
    status is 1 and a listener's serve call had returned; as long as no
    serve call has returned the process is alive.  [main] itself,
    blocked in [select {}], never moves again. *)
Theorem process_lives_until_a_listener_returns w p :
  reachable w p ->
  pc p <> AtSetup ->
  (forall c, exited p = Some c ->
     c = 1 /\
     exists g srv err,
       goroutine p g = Some (GReturned srv err) /\
       count (ev_return g) (trace (gs p)) = 1) /\
  ((forall g, count (ev_return g) (trace (gs p)) = 0) -> exited p = None) /\
  (pc p = AtSelect -> exec w AMain p = None).
Proof.
  intros HR Hpc.
  destruct (reachable_inv _ _ HR) as [-> | s Hs -> | s0 tl Hs Hgs HL];
    [exfalso; apply Hpc; reflexivity..|].
  assert (Hret : forall g srv err,
             goroutine p g = Some (GReturned srv err) ->
             count (ev_return g) (trace (gs p)) = 1).
  { intros g srv err Hg. rewrite Hgs.
    destruct (extend_fields s0 tl) as (_ & _ & _ & ->).
    assert (Hinv : g_inv w g (pc p) (goroutine p g) tl)
      by (destruct g; [exact (li_plain _ _ _ _ HL)
                      |exact (li_tls _ _ _ _ HL)]).
    pose proof (running_tally _ _ _ _ _ _ Hs Hinv) as Hta.
    rewrite Hg in Hta. unfold tally in Hta. cbn [expected] in Hta.
    injection Hta as _ _ Hr. exact Hr. }
  assert (Hexit : forall c, exited p = Some c ->
             c = 1 /\
             exists g srv err,
               goroutine p g = Some (GReturned srv err) /\
               count (ev_return g) (trace (gs p)) = 1).
  { intros c Hc. pose proof (li_exit _ _ _ _ HL) as Hx.
    unfold exit_inv in Hx. rewrite Hc in Hx.
    destruct Hx as (-> & g & srv & err & tl' & Hg & _).
    split; [reflexivity|]. exists g, srv, err.
    split; [exact Hg|]. exact (Hret _ _ _ Hg). }
  split; [exact Hexit|]. split.
  - intros Hnone. destruct (exited p) as [c|] eqn:Hc; [|reflexivity].
    destruct (Hexit c eq_refl) as (_ & g & srv & err & _ & H1).
    rewrite (Hnone g) in H1. discriminate H1.
  - intros Hsel. unfold exec, main_step. rewrite Hsel.
    destruct (exited p); reflexivity.
Qed.

Lemma process_lives_witness :
  exited (after w_tls [AMain; AMain; AMain; AStart Plain; AStart TLS;
                       AServe TLS "/_matrix/key/v2/server"]) = None.
Proof.
  destruct (process_lives_until_a_listener_returns
              w_tls
              (after w_tls [AMain; AMain; AMain; AStart Plain; AStart TLS;
                            AServe TLS "/_matrix/key/v2/server"])
              (after_reachable _ _)) as (_ & H & _).
  - vm_compute. intros E. discriminate E.
  - apply H. intros g. destruct g; vm_compute; reflexivity.
Defined.

(** ** The order of the listener events *)

Lemma mon_run_app w t : forall m t',
  mon_run w m (t ++ t')
  = match mon_run w m t with
    | Some m' => mon_run w m' t'
    | None => None
    end.
Proof.
  induction t as [|e t IH]; intros m t'; [reflexivity|].
  cbn [mon_run app]. destruct (mon_step w m e); [apply IH|reflexivity].
Qed.

Lemma first_state_monitored w :
  first_monitored w (main_setup w init_state) = true.
Proof.
  apply (main_setup_cases (fun _ _ rs => first_monitored w rs = true)).
  enum_setup ltac:(vm_compute; reflexivity).
Qed.

Lemma is_listening_log_refl srv :
  is_listening_log
    (Some (ELog InfoLevel "Listening on " (VStr (Addr srv)))) srv = true.
Proof.
  unfold is_listening_log. rewrite !String.eqb_refl. reflexivity.
Qed.

Lemma is_new_server_refl w g : is_new_server w g (new_server w g) = true.
Proof.
  unfold is_new_server. rewrite String.eqb_refl.
  destruct g; cbn [new_server WriteTimeout Handler is_some negb];
    rewrite Z.eqb_refl; reflexivity.
Qed.

Lemma phase_eqb_eq a b : phase_eqb a b = true -> a = b.
Proof. destruct a, b; try discriminate; reflexivity. Qed.

(** The monitor accepts the trace of every reachable state and ends in
    the state that matches the process. *)
Ltac monitor_step Hrun :=
  cbn [gs trace emit_state logrus_Fatal];
  rewrite <- ?app_assoc; cbn [app];
  rewrite mon_run_app, Hrun; cbn [mon_run];
  unfold mon_step, is_listening_log, is_new_server;
  cbn [m_dead m_plain m_tls m_prev m_phase phase_of phase_eqb andb orb negb
       advance is_fatal_log Nat.eqb is_some new_server Addr WriteTimeout
       Handler];
  rewrite ?String.eqb_refl, ?Z.eqb_refl, ?orb_true_r;
  cbn [m_dead m_plain m_tls m_prev m_phase phase_of phase_eqb andb orb negb
       advance is_fatal_log Nat.eqb is_some];
  eexists; split; [reflexivity|]; repeat split.

Lemma reachable_monitored w p :
  reachable w p ->
  exists m, mon_run w mon0 (trace (gs p)) = Some m /\ mon_matches m p.
Proof.
  induction 1 as [|p a p' HR IH Hex].
  - exists mon0. repeat split.
  - destruct IH as (m & Hrun & Hm).
    destruct (reachable_inv _ _ HR) as [-> | s Hs -> | s0 tl Hs Hgs HL].
    + (* the first step *)
      destruct a as [|g|g ?|g ?|g]; try (destruct g; discriminate Hex).
      pose proof (first_state_monitored w) as Hfirst.
      unfold first_monitored, first_state, returned in Hfirst.
      unfold exec, main_step in Hex. cbn [exited init_proc pc gs] in Hex.
      destruct (main_setup w init_state) as [[[]|] s] eqn:E;
        injection Hex as <-; cbn [fst snd gs] in Hfirst |- *.
      * destruct (mon_run w mon0 (trace s)) as [m'|];
          [|discriminate Hfirst].
        exists m'. split; [reflexivity|].
        apply andb_true_iff in Hfirst. destruct Hfirst as [Hfirst Hd].
        apply andb_true_iff in Hfirst. destruct Hfirst as [H1 H2].
        apply phase_eqb_eq in H1, H2. apply Bool.eqb_prop in Hd.
        repeat split; assumption.
      * destruct (mon_run w mon0 (trace (crash s))) as [m'|];
          [|discriminate Hfirst].
        exists m'. split; [reflexivity|].
        apply andb_true_iff in Hfirst. destruct Hfirst as [Hfirst Hd].
        apply andb_true_iff in Hfirst. destruct Hfirst as [H1 H2].
        apply phase_eqb_eq in H1, H2. apply Bool.eqb_prop in Hd.
        repeat split; assumption.
    + discriminate Hex.
    + clear Hgs Hs. destruct p as [g0 c pg tg ex]. cbn [gs] in Hrun.
      destruct HL as [Hpc _ _ Hp Ht _]. cbn [pc plain_g tls_g] in *.
      destruct m as [mp mt prev dead].
      destruct Hm as (Hmp & Hmt & Hmd).
      cbn [m_plain m_tls m_dead plain_g tls_g exited] in Hmp, Hmt, Hmd.
      subst mp mt dead.
      unfold exec in Hex. cbn [exited] in Hex.
      destruct ex as [code|]; [discriminate Hex|].
      pose proof (gi_launched _ _ _ _ _ Hp) as Hlp.
      pose proof (gi_launched _ _ _ _ _ Ht) as Hlt.
      destruct a as [|g|g path|g err|g].
      * unfold main_step in Hex. cbn [pc gs plain_g tls_g exited] in Hex.
        destruct c; try discriminate Hex.
        -- exfalso. apply Hpc. reflexivity.
        -- destruct pg; [discriminate Hlp|]. destruct tg; [discriminate Hlt|].
           injection Hex as <-. monitor_step Hrun.
        -- destruct tg; [discriminate Hlt|].
           destruct (tls_configured w); injection Hex as <-.
           ++ destruct pg as [[| |]|]; try discriminate Hlp;
                monitor_step Hrun.
           ++ exists (mkMon (phase_of pg) PhNone prev false).
              split; [exact Hrun|]. repeat split.
      * destruct g; cbn [goroutine_step goroutine plain_g tls_g] in Hex.
        -- destruct pg as [[| |]|]; try discriminate Hex.
           injection Hex as <-. cbn [set_goroutine]. monitor_step Hrun.
        -- destruct tg as [[| |]|]; try discriminate Hex.
           injection Hex as <-. cbn [set_goroutine]. monitor_step Hrun.
      * destruct g; cbn [goroutine_step goroutine plain_g tls_g] in Hex.
        -- destruct pg as [[| |]|]; try discriminate Hex.
           injection Hex as <-. cbn [set_goroutine]. monitor_step Hrun.
        -- destruct tg as [[| |]|]; try discriminate Hex.
           injection Hex as <-. cbn [set_goroutine]. monitor_step Hrun.
      * destruct g; cbn [goroutine_step goroutine plain_g tls_g] in Hex.
        -- destruct pg as [[| |]|]; try discriminate Hex.
           injection Hex as <-. cbn [set_goroutine]. monitor_step Hrun.
        -- destruct tg as [[| |]|]; try discriminate Hex.
           injection Hex as <-. cbn [set_goroutine]. monitor_step Hrun.
      * destruct g; cbn [goroutine_step goroutine plain_g tls_g] in Hex.
        -- destruct pg as [[| |]|]; try discriminate Hex.
           injection Hex as <-. monitor_step Hrun.
        -- destruct tg as [[| |]|]; try discriminate Hex.
           injection Hex as <-. monitor_step Hrun.
Qed.

Lemma mon_step_prev w m e m' :
  mon_step w m e = Some m' -> m_prev m' = Some e.
Proof.
  unfold mon_step. destruct (m_dead m); [discriminate|].
  destruct e as [| | | | | | |g|g srv|g ? ?|g ?|c];
    try (intros H; injection H as <-; reflexivity).
  - destruct g;
      match goal with |- (if ?b then _ else _) = _ -> _ => destruct b end;
      intros H; try discriminate H; injection H as <-; reflexivity.
  - match goal with |- (if ?b then _ else _) = _ -> _ => destruct b end;
      intros H; try discriminate H; injection H as <-;
      destruct g; reflexivity.
  - match goal with |- (if ?b then _ else _) = _ -> _ => destruct b end;
      intros H; try discriminate H; injection H as <-;
      destruct g; reflexivity.
  - match goal with |- (if ?b then _ else _) = _ -> _ => destruct b end;
      intros H; try discriminate H; injection H as <-;
      destruct g; reflexivity.
  - match goal with |- (if ?b then _ else _) = _ -> _ => destruct b end;
      intros H; try discriminate H; injection H as <-; reflexivity.
Qed.


(** Where the monitor stands when it reads the event at index [j]. *)
Lemma mon_at w t : forall m m' j e,
  mon_run w m t = Some m' ->
  nth_error t j = Some e ->
  exists m1 m2,
    mon_run w m (firstn j t) = Some m1 /\
    mon_step w m1 e = Some m2 /\
    mon_run w m2 (skipn (S j) t) = Some m' /\
    m_prev m1 = match j with
                | 0 => m_prev m
                | S i => nth_error t i
                end.
Proof.
  induction t as [|x t IH]; intros m m' j e Hrun Hn.
  - destruct j; discriminate Hn.
  - cbn [mon_run] in Hrun.
    destruct (mon_step w m x) as [mx|] eqn:Ex; [|discriminate Hrun].
    destruct j as [|j]; cbn [nth_error] in Hn.
    + injection Hn as <-. exists m, mx. cbn [firstn skipn mon_run]. auto.
    + destruct (IH _ _ _ _ Hrun Hn) as (m1 & m2 & H1 & H2 & H3 & H4).
      exists m1, m2. cbn [firstn skipn mon_run]. rewrite Ex.
      repeat (split; [assumption|]).
      rewrite H4. destruct j as [|j]; [|reflexivity].
      cbn [nth_error]. exact (mon_step_prev _ _ _ _ Ex).
Qed.

Lemma mon_step_tally w m e m' g :
  mon_step w m e = Some m' ->
  tally_add (tally g [e]) (phase_tally (m_phase m g))
  = phase_tally (m_phase m' g).
Proof.
  unfold mon_step. destruct m as [mp mt prev dead].
  cbn [m_dead m_plain m_tls m_prev m_phase].
  destruct dead; [discriminate|].
  destruct e as [| | | | | | |g'|g' srv|g' ? ?|g' ?|c];
    try (intros H; injection H as <-; destruct g, mp, mt; reflexivity).
  - destruct g', g, mp, mt; cbn; intros H; try discriminate H;
      injection H as <-; reflexivity.
  - destruct (is_listening_log prev srv), (is_new_server w g' srv);
      destruct g', g, mp, mt; cbn; intros H; try discriminate H;
      injection H as <-; reflexivity.
  - destruct g', g, mp, mt; cbn; intros H; try discriminate H;
      injection H as <-; reflexivity.
  - destruct g', g, mp, mt; cbn; intros H; try discriminate H;
      injection H as <-; reflexivity.
  - match goal with |- (if ?b then _ else _) = _ -> _ => destruct b end;
      intros H; try discriminate H; injection H as <-;
      destruct g, mp, mt; reflexivity.
Qed.

Lemma tally_cons g e t :
  tally g (e :: t) = tally_add (tally g [e]) (tally g t).
Proof.
  unfold tally, tally_add. cbn [count]. rewrite !Nat.add_0_r. reflexivity.
Qed.

Lemma tally_add_assoc a b c :
  tally_add (tally_add a b) c = tally_add a (tally_add b c).
Proof.
  destruct a as [[a1 a2] a3], b as [[b1 b2] b3], c as [[c1 c2] c3].
  unfold tally_add. rewrite !Nat.add_assoc. reflexivity.
Qed.

Lemma tally_add_comm a b : tally_add a b = tally_add b a.
Proof.
  destruct a as [[a1 a2] a3], b as [[b1 b2] b3].
  unfold tally_add. f_equal; [f_equal|]; apply Nat.add_comm.
Qed.

(** The monitor counts: what it has read of a listener, added to the
    phase it started from, is the phase it ends in. *)
Lemma mon_tally w g t : forall m m',
  mon_run w m t = Some m' ->
  tally_add (tally g t) (phase_tally (m_phase m g))
  = phase_tally (m_phase m' g).
Proof.
  induction t as [|e t IH]; intros m m' Hrun.
  - injection Hrun as <-. destruct (phase_tally (m_phase m g)) as [[a b] c].
    reflexivity.
  - cbn [mon_run] in Hrun.
    destruct (mon_step w m e) as [mx|] eqn:Ex; [|discriminate Hrun].
    rewrite tally_cons.
    rewrite (tally_add_comm (tally g [e])), tally_add_assoc.
    rewrite (mon_step_tally _ _ _ _ g Ex). apply IH. exact Hrun.
Qed.

Lemma mon_tally_from_start w g t m :
  mon_run w mon0 t = Some m -> tally g t = phase_tally (m_phase m g).
Proof.
  intros H. rewrite <- (mon_tally _ g _ _ _ H).
  destruct g; cbn [m_phase mon0 m_plain m_tls phase_tally];
    destruct (tally _ t) as [[a b] c]; unfold tally_add;
    rewrite !Nat.add_0_r; reflexivity.
Qed.







(** X9.  The TLS listener: in every reachable state, a [go] for it
    sits after the [go] of the plaintext listener; it has been launched
    at most once and has entered ListenAndServeTLS at most once; a
    listening TLS server is bound to the configured HTTPS address with
    the same write timeout constant as the plaintext server and no
    handler of its own.  Without the flag the address is ":8448". *)
Theorem tls_listener_follows_plaintext w p :
  reachable w p ->
  (forall j, nth_error (trace (gs p)) j = Some (EGo TLS) ->
             count (ev_go Plain) (firstn j (trace (gs p))) = 1) /\
  count (ev_go TLS) (trace (gs p)) <= 1 /\
  count (ev_listen TLS) (trace (gs p)) <= 1 /\
  (forall srv, tls_g p = Some (GListening srv) ->
               Addr srv = httpsBindAddr w /\
               WriteTimeout srv = HTTPServerTimeout w /\
               Handler srv = None) /\
  (flag_https_bind_address w = None -> httpsBindAddr w = ":8448").
Proof.
  intros HR.
  destruct (reachable_monitored _ _ HR) as (m & Hrun & _).
  split; [|split; [|split; [|split]]].
  - intros j Hn.
    destruct (mon_at _ _ _ _ _ _ Hrun Hn) as (m1 & m2 & Hpre & Hstep & _).
    pose proof (mon_tally_from_start _ Plain _ _ Hpre) as Hta.
    unfold mon_step in Hstep. destruct (m_dead m1); [discriminate Hstep|].
    cbn [m_phase] in Hta. unfold tally in Hta.
    destruct (m_plain m1); cbn in Hstep; try discriminate Hstep;
      cbn [phase_tally] in Hta; injection Hta as Hgo _ _; exact Hgo.
  - pose proof (mon_tally_from_start _ TLS _ _ Hrun) as Hta.
    unfold tally in Hta.
    destruct (m_phase m TLS); cbn [phase_tally] in Hta;
      injection Hta as -> _ _; auto.
  - pose proof (mon_tally_from_start _ TLS _ _ Hrun) as Hta.
    unfold tally in Hta.
    destruct (m_phase m TLS); cbn [phase_tally] in Hta;
      injection Hta as _ -> _; auto.
  - intros srv Hsrv.
    destruct (reachable_inv _ _ HR) as [-> | s Hs -> | s0 tl Hs Hgs HL];
      try discriminate Hsrv.
    pose proof (gi_server _ _ _ _ _ (li_tls _ _ _ _ HL) srv) as Hnew.
    rewrite Hsrv in Hnew. rewrite (Hnew eq_refl). repeat split.
  - intros Hflag. unfold httpsBindAddr. rewrite Hflag. reflexivity.
Qed.

Lemma tls_follows_plaintext_witness :
  count (ev_go Plain)
        (firstn 28 (trace (gs (after w_tls [AMain; AMain; AMain])))) = 1.
Proof.
  apply (tls_listener_follows_plaintext
           w_tls (after w_tls [AMain; AMain; AMain]) (after_reachable _ _)).
  reflexivity.
Defined.



(** ** The metrics handler *)

Lemma first_state_no_metrics w :
  metrics_enabled w = false ->
  count ev_metrics (trace (first_state (main_setup w init_state))) = 0.
Proof.
  apply (main_setup_cases
           (fun me _ rs => me = false ->
                           count ev_metrics (trace (first_state rs)) = 0)).
  enum_setup ltac:(intros E; first [discriminate E
                                   | vm_compute; reflexivity]).
Qed.

Lemma assembled_metrics :
  nth_error (trace (assembled true)) 23
  = Some (ECall promhttp_Handler [] [VPromHandler]) /\
  nth_error (trace (assembled true)) 24
  = Some (ECall WrapHandlerInBasicAuth
                [VPromHandler;
                 VField (VField (VHandle KCfg 0) "Metrics") "BasicAuth"]
                [metrics_handler]) /\
  nth_error (trace (assembled true)) 25
  = Some (EHandle "/metrics" metrics_handler) /\
  nth_error (trace (assembled true)) 26
  = Some (EHandle "/" merged_handler) /\
  count ev_metrics (trace (assembled true)) = 3.
Proof. vm_compute. repeat split. Qed.

(** X11.  With metrics disabled, in every reachable state the trace
    holds no call of [promhttp.Handler], no call of
    [WrapHandlerInBasicAuth] and no registration of "/metrics": the
    metrics handler is not even built.  With metrics enabled, once
    [main_setup] has returned, each of the three happened exactly once,
    in that order and before "/" was registered: the handler built by
    [promhttp.Handler] was wrapped with the credentials of
    [cfg.Metrics.BasicAuth] and the wrapped handler is what "/metrics"
    was registered with. *)
Theorem metrics_handler_built_only_if_enabled w p :
  reachable w p ->
  (metrics_enabled w = false -> count ev_metrics (trace (gs p)) = 0) /\
  (metrics_enabled w = true -> pc p <> AtSetup ->
     count ev_metrics (trace (gs p)) = 3 /\
     nth_error (trace (gs p)) 23
     = Some (ECall promhttp_Handler [] [VPromHandler]) /\
     nth_error (trace (gs p)) 24
     = Some (ECall WrapHandlerInBasicAuth
                   [VPromHandler;
                    VField (VField (VHandle KCfg 0) "Metrics") "BasicAuth"]
                   [metrics_handler]) /\
     nth_error (trace (gs p)) 25 = Some (EHandle "/metrics" metrics_handler) /\
     nth_error (trace (gs p)) 26 = Some (EHandle "/" merged_handler)).
Proof.
  intros HR. split.
  - intros Hme.
    destruct (reachable_first _ _ HR) as [-> | (tl & Ht & Hl)];
      [reflexivity|].
    rewrite Ht, count_app, (first_state_no_metrics _ Hme).
    apply (launch_count_zero _ _ Hl).
    clear. intros e He. destruct e; try discriminate He; reflexivity.
  - intros Hme Hpc.
    destruct (past_setup _ _ HR Hpc) as (tl & Hgs & HL & _).
    rewrite Hgs, Hme.
    destruct (extend_fields (assembled true) tl) as (_ & _ & _ & ->).
    destruct assembled_metrics as (H1 & H2 & H3 & H4 & H5).
    assert (Hlen : forall i e,
               nth_error (trace (assembled true)) i = Some e ->
               nth_error (trace (assembled true) ++ tl) i = Some e).
    { intros i e Hi. rewrite nth_error_app1; [exact Hi|].
      apply nth_error_Some. rewrite Hi. discriminate. }
    split; [|repeat split; apply Hlen; assumption].
    rewrite count_app, H5.
    rewrite (launch_count_zero _ _ (li_events _ _ _ _ HL)); [reflexivity|].
    clear. intros e He. destruct e; try discriminate He; reflexivity.
Qed.

Lemma metrics_handler_witness :
  count ev_metrics (trace (gs (after w_default [AMain; AMain; AMain]))) = 0.
Proof.
  apply (metrics_handler_built_only_if_enabled
           w_default (after w_default [AMain; AMain; AMain])
           (after_reachable _ _)).
  reflexivity.
Defined.
